(** * The thread page of the Wren UI: asynchronous orchestration

    A shallow embedding of [HomeThread] (the page component that follows the
    GraphQL documents in [wren-ui/src/apollo/client/graphql/home.ts]) and of
    the JavaScript conversions it relies on, with the properties of its
    response list, its pollers and its reaction to a change of thread. *)

From Stdlib Require Import ZArith Lia Ascii String.
From stdpp Require Import base option list gmap strings pretty.

Open Scope Z_scope.

(** ** JavaScript numbers and [Number(...)]

    [const threadId = useMemo(() => Number(params?.id) || null, [params])]

    A JavaScript number is an IEEE 754 binary64 value.  A finite value is
    kept as [Finite m e], standing for [m * 2^e], in lowest terms ([m] odd,
    or [Finite 0 0] for zero) so that Leibniz equality is [===] on every
    value but [NaN].  The sign of zero is not kept: [0] and [-0] are both
    falsy and [0 === -0]. *)
Module JS.

Inductive number :=
  | NaN
  | Infinity (negative : bool)
  | Finite (m e : Z).

#[global] Instance number_eq_dec : EqDecision number.
Proof. solve_decision. Defined.

#[global] Instance number_countable : Countable number.
Proof.
  refine (inj_countable'
    (fun x => match x with
              | NaN => inl ()
              | Infinity b => inr (inl b)
              | Finite m e => inr (inr (m, e))
              end)
    (fun y => match y with
              | inl _ => NaN
              | inr (inl b) => Infinity b
              | inr (inr (m, e)) => Finite m e
              end) _).
  by intros [].
Defined.

(** The odd part of a positive number and the power of two taken out. *)
Fixpoint oddPart (p : positive) : positive * Z :=
  match p with
  | xO q => let '(r, k) := oddPart q in (r, k + 1)
  | _ => (p, 0)
  end.

Definition normalize (m e : Z) : number :=
  match m with
  | Z0 => Finite 0 0
  | Zpos p => let '(r, k) := oddPart p in Finite (Zpos r) (e + k)
  | Zneg p => let '(r, k) := oddPart p in Finite (Zneg r) (e + k)
  end.

(** [binade n d] is the exponent [b] with [2^b <= n/d < 2^(b+1)],
    for positive [n] and [d]. *)
Definition binade (n d : Z) : Z :=
  let b := Z.log2 n - Z.log2 d in
  if (if 0 <=? b then d * 2 ^ b <=? n else d <=? n * 2 ^ (- b))
  then b else b - 1.

(** The integer nearest to [n/d], ties to the even one. *)
Definition roundHalfEven (n d : Z) : Z :=
  let q := n / d in
  match 2 * (n mod d) ?= d with
  | Lt => q
  | Gt => q + 1
  | Eq => if Z.even q then q else q + 1
  end.

(** The binary64 value of the rational [n/d] ([0 <= n], [0 < d]) with the
    given sign: round to nearest, ties to even, subnormals below [2^-1022],
    infinity from [2^1024] on. *)
Definition toDouble (negative : bool) (n d : Z) : number :=
  if n =? 0 then Finite 0 0 else
  let u := Z.max (binade n d) (-1022) - 52 in
  let m := if 0 <=? u then roundHalfEven n (d * 2 ^ u)
           else roundHalfEven (n * 2 ^ (- u)) d in
  if (0 <=? u) && (2 ^ 1024 <=? m * 2 ^ u) then Infinity negative
  else normalize (if negative then - m else m) u.

Definition ofZ (z : Z) : number := toDouble (z <? 0) (Z.abs z) 1.

(** Strings are held as their UTF-8 bytes. *)
Definition bytes (s : string) : list Z :=
  (fun a => Z.of_N (N_of_ascii a)) <$> list_ascii_of_string s.

(** [StrWhiteSpaceChar]: WhiteSpace (TAB, VT, FF, ZWNBSP and the space
    separators) and LineTerminator (LF, CR, LS, PS), as UTF-8. *)
Definition whiteSpace : list (list Z) :=
  [ [9]; [10]; [11]; [12]; [13]; [32];
    [194; 160]; [225; 154; 128];
    [226; 128; 128]; [226; 128; 129]; [226; 128; 130]; [226; 128; 131];
    [226; 128; 132]; [226; 128; 133]; [226; 128; 134]; [226; 128; 135];
    [226; 128; 136]; [226; 128; 137]; [226; 128; 138];
    [226; 128; 168]; [226; 128; 169]; [226; 128; 175];
    [226; 129; 159]; [227; 128; 128]; [239; 187; 191] ].

Fixpoint stripPrefix (p l : list Z) : option (list Z) :=
  match p, l with
  | [], _ => Some l
  | a :: p', b :: l' => if a =? b then stripPrefix p' l' else None
  | _ :: _, [] => None
  end.

Fixpoint stripAny (ps : list (list Z)) (l : list Z) : option (list Z) :=
  match ps with
  | [] => None
  | p :: ps' =>
      match stripPrefix p l with
      | Some r => Some r
      | None => stripAny ps' l
      end
  end.

Fixpoint trimStartFuel (fuel : nat) (ws : list (list Z)) (l : list Z) : list Z :=
  match fuel with
  | O => l
  | S fuel' =>
      match stripAny ws l with
      | Some r => trimStartFuel fuel' ws r
      | None => l
      end
  end.

Definition trimStart (ws : list (list Z)) (l : list Z) : list Z :=
  trimStartFuel (length l) ws l.

Definition trim (l : list Z) : list Z :=
  reverse (trimStart (reverse <$> whiteSpace) (reverse (trimStart whiteSpace l))).

Definition digitIn (radix c : Z) : option Z :=
  let v := if (48 <=? c) && (c <=? 57) then c - 48
           else if (97 <=? c) && (c <=? 122) then c - 87
           else if (65 <=? c) && (c <=? 90) then c - 55
           else 36 in
  if v <? radix then Some v else None.

(** The longest prefix of digits of the radix, and what follows it. *)
Fixpoint takeDigits (radix : Z) (l : list Z) : list Z * list Z :=
  match l with
  | [] => ([], [])
  | c :: l' =>
      match digitIn radix c with
      | Some v => let '(ds, r) := takeDigits radix l' in (v :: ds, r)
      | None => ([], l)
      end
  end.

Definition digitsValue (radix : Z) (ds : list Z) : Z :=
  foldl (fun acc v => acc * radix + v) 0 ds.

(** [NonDecimalIntegerLiteral] without its two-character prefix. *)
Definition nonDecimal (radix : Z) (l : list Z) : number :=
  match takeDigits radix l with
  | ((_ :: _) as ds, []) => ofZ (digitsValue radix ds)
  | _ => NaN
  end.

(** [ExponentPart], optional: the exponent, or [None] when malformed. *)
Definition exponentPart (l : list Z) : option Z :=
  match l with
  | [] => Some 0
  | c :: l' =>
      if (c =? 101) || (c =? 69) then
        let '(negative, l'') :=
          match l' with
          | 43 :: r => (false, r)
          | 45 :: r => (true, r)
          | _ => (false, l')
          end in
        match takeDigits 10 l'' with
        | ((_ :: _) as ds, []) =>
            Some (if negative then - digitsValue 10 ds else digitsValue 10 ds)
        | _ => None
        end
      else None
  end.

(** [StrUnsignedDecimalLiteral]. *)
Definition unsignedDecimal (negative : bool) (l : list Z) : number :=
  if decide (l = bytes "Infinity") then Infinity negative else
  let '(ip, r) := takeDigits 10 l in
  let '(fp, r') :=
    match r with
    | 46 :: r1 => takeDigits 10 r1
    | _ => ([], r)
    end in
  match ip ++ fp with
  | [] => NaN
  | ds =>
      match exponentPart r' with
      | None => NaN
      | Some x =>
          let k := x - Z.of_nat (length fp) in
          if 0 <=? k then toDouble negative (digitsValue 10 ds * 10 ^ k) 1
          else toDouble negative (digitsValue 10 ds) (10 ^ (- k))
      end
  end.

(** [StringToNumber]: the value of a [StringNumericLiteral], [NaN] when the
    string is not one; the empty and the all-blank string give [0]. *)
Definition StringToNumber (s : string) : number :=
  match trim (bytes s) with
  | [] => Finite 0 0
  | 48 :: 120 :: l | 48 :: 88 :: l => nonDecimal 16 l
  | 48 :: 111 :: l | 48 :: 79 :: l => nonDecimal 8 l
  | 48 :: 98 :: l | 48 :: 66 :: l => nonDecimal 2 l
  | 43 :: l => unsignedDecimal false l
  | 45 :: l => unsignedDecimal true l
  | l => unsignedDecimal false l
  end.

(** A route parameter is a string, or an array of strings for a catch-all
    segment; [params?.id] is [undefined] ([None]) when there is none. *)
Inductive ParamValue :=
  | PString (s : string)
  | PArray (l : list string).

Fixpoint join (sep : string) (l : list string) : string :=
  match l with
  | [] => ""
  | [s] => s
  | s :: l' => s +:+ sep +:+ join sep l'
  end.

(** [Number(v)]: [undefined] gives [NaN], an array goes through its
    [toString()], which joins the elements with commas. *)
Definition Number (v : option ParamValue) : number :=
  match v with
  | None => NaN
  | Some (PString s) => StringToNumber s
  | Some (PArray l) => StringToNumber (join "," l)
  end.

Definition truthy (x : number) : bool :=
  match x with
  | NaN => false
  | Finite 0 _ => false
  | _ => true
  end.

(** [x || null] *)
Definition orNull (x : number) : option number :=
  if truthy x then Some x else None.

End JS.

(** ** GraphQL data

    The shapes selected by the fragments [CommonError], [CommonResponse]
    and [CommonRecommendedQuestionsTask] and by the [Thread] query.  An [Int]
    is a [Z]; a field that may be null is an [option]. *)

(** Modelled from the spec: the enumeration behind [ThreadResponse.status]
    is declared outside this file; the data model gives
    [status ∈ {pending, generating, finished, failed, stopped}]. *)
Module Status.
Inductive t := pending | generating | finished | failed | stopped.
#[global] Instance Status_eq_dec : EqDecision t.
Proof. solve_decision. Defined.
End Status.

(** Modelled from the spec: the enumeration behind
    [RecommendedQuestionsTask.status] is declared outside this file; the data
    model gives [status ∈ {not_started, generating, finished, failed}]. *)
Module RecommendedQuestionsTaskStatus.
Inductive t := not_started | generating | finished | failed.
#[global] Instance RecommendedQuestionsTaskStatus_eq_dec : EqDecision t.
Proof. solve_decision. Defined.
End RecommendedQuestionsTaskStatus.

Module Error.
Record t := mk {
    code : option string;
    shortMessage : option string;
    message : option string;
    stacktrace : list string }.
#[global] Instance Error_eq_dec : EqDecision t.
Proof. solve_decision. Defined.
End Error.

Module View.
Record t := mk {
    id : Z;
    name : string;
    statement : string;
    displayName : string }.
#[global] Instance View_eq_dec : EqDecision t.
Proof. solve_decision. Defined.
End View.

Module DetailStep.
Record t := mk {
    summary : string;
    sql : string;
    cteName : option string }.
#[global] Instance DetailStep_eq_dec : EqDecision t.
Proof. solve_decision. Defined.
End DetailStep.

Module Detail.
Record t := mk {
    sql : option string;
    description : option string;
    steps : list DetailStep.t;
    view : option View.t }.
#[global] Instance Detail_eq_dec : EqDecision t.
Proof. solve_decision. Defined.
End Detail.

Module ThreadResponse.
Record t := mk {
    id : Z;
    question : option string;
    status : Status.t;
    detail : option Detail.t;
    error : option Error.t }.
#[global] Instance ThreadResponse_eq_dec : EqDecision t.
Proof. solve_decision. Defined.
End ThreadResponse.

Module Thread.
Record t := mk {
    id : Z;
    sql : option string;
    responses : list ThreadResponse.t }.
#[global] Instance Thread_eq_dec : EqDecision t.
Proof. solve_decision. Defined.
End Thread.

Module RecommendedQuestion.
Record t := mk {
    question : string;
    category : string;
    sql : string }.
#[global] Instance RecommendedQuestion_eq_dec : EqDecision t.
Proof. solve_decision. Defined.
End RecommendedQuestion.

Module RecommendedQuestionsTask.
Record t := mk {
    status : RecommendedQuestionsTaskStatus.t;
    questions : list RecommendedQuestion.t;
    error : option Error.t }.
#[global] Instance RecommendedQuestionsTask_eq_dec : EqDecision t.
Proof. solve_decision. Defined.
End RecommendedQuestionsTask.

(** The result of the [Thread] query as [updateQuery] hands it to its
    function: [prev.thread] is absent when nothing is cached for the
    current variables. *)
Module ThreadQuery.
Record t := mk { thread : option Thread.t }.
End ThreadQuery.

(** The input of [createThreadResponse]; the page passes it through. *)
Module CreateThreadResponseInput.
Record t := mk {
    question : option string;
    sql : option string;
    viewId : option Z }.
#[global] Instance CreateThreadResponseInput_eq_dec : EqDecision t.
Proof. solve_decision. Defined.
End CreateThreadResponseInput.

(** ** Completions

    A JavaScript computation ends normally or throws; what it did to the
    state before throwing stays done. *)
Inductive Exn :=
  | TypeError     (* a property read on [undefined] or [null] *)
  | ApolloError.  (* a mutation rejected by the network or the server *)

Inductive Completion (A : Type) :=
  | Normal (a : A)
  | Throw (e : Exn).
Arguments Normal {A} a.
Arguments Throw {A} e.

#[global] Instance Exn_eq_dec : EqDecision Exn.
Proof. solve_decision. Defined.

(** ** The response list

    The two functions given to [updateThreadQuery]. *)

(** [(prev) => ({ ...prev, thread: { ...prev.thread,
       responses: [...prev.thread.responses, nextResponse] } })] *)
Definition appendResponse (nextResponse : ThreadResponse.t)
    (prev : ThreadQuery.t) : Completion ThreadQuery.t :=
  match ThreadQuery.thread prev with
  | None => Throw TypeError
  | Some t =>
      Normal (ThreadQuery.mk (Some
        (Thread.mk (Thread.id t) (Thread.sql t)
           (Thread.responses t ++ [nextResponse]))))
  end.

(** [responses.map((response) =>
       response.id === nextResponse.id ? nextResponse : response)] *)
Definition mergeResponses (nextResponse : ThreadResponse.t)
    (responses : list ThreadResponse.t) : list ThreadResponse.t :=
  (fun response =>
     if decide (ThreadResponse.id response = ThreadResponse.id nextResponse)
     then nextResponse else response) <$> responses.

(** [(prev) => ({ ...prev, thread: { ...prev.thread,
       responses: prev.thread.responses.map(...) } })] *)
Definition mergeResponse (nextResponse : ThreadResponse.t)
    (prev : ThreadQuery.t) : Completion ThreadQuery.t :=
  match ThreadQuery.thread prev with
  | None => Throw TypeError
  | Some t =>
      Normal (ThreadQuery.mk (Some
        (Thread.mk (Thread.id t) (Thread.sql t)
           (mergeResponses nextResponse (Thread.responses t)))))
  end.

(** ** The hooks the page stands on *)

(** What the page imports from the [useAskPrompt] hook, which is outside
    this file. *)
Module useAskPrompt.

(** Modelled from the spec: [getIsFinished] as the response synchronizer
    polls with it, [isFinished = status ∈ {finished, failed}]; no status at
    all is not a finished one.  The page is modelled over any
    [getIsFinished]; this one serves where a concrete one is run. *)
Definition getIsFinished (status : option Status.t) : bool :=
  match status with
  | Some Status.finished | Some Status.failed => true
  | _ => false
  end.

(** Modelled from the spec: [isRecommendedFinished]; the recommendation
    controller polls with [isFinished = status ∈ {finished, failed}].  The
    page calls it on [recommendedQuestions?.status], [undefined] before any
    result. *)
Definition isRecommendedFinished
    (status : option RecommendedQuestionsTaskStatus.t) : bool :=
  match status with
  | Some RecommendedQuestionsTaskStatus.finished
  | Some RecommendedQuestionsTaskStatus.failed => true
  | _ => false
  end.

End useAskPrompt.

(** Modelled from the spec: the part of [useAskPrompt] the page touches.
    [onStopPolling] stops the asking-task poller (it detaches local interest
    and cancels nothing remotely); [onStoreThreadQuestions] keeps the
    questions of the thread for the instant recommendations. *)
Module AskPrompt.
Record t := mk {
    polling : bool;
    threadQuestions : list string }.
Definition onStopPolling (a : t) : t := mk false (threadQuestions a).
Definition onStoreThreadQuestions (questions : list string) (a : t) : t :=
    mk (polling a) questions.
End AskPrompt.

(** A lazy query created with [pollInterval: 1000], as far as the page uses
    it: executing it sets its variables and polls from then on; [data] is
    the last result for the current variables, so it is [undefined] again
    once the variables change; [stopPolling] ends the timer and leaves the
    rest alone; [startPolling] is the timer set going again for the
    variables the query has. *)
Module LazyQuery.
Record t (V D : Type) := mk {
    variables : option V;
    polling : bool;
    data : option D }.
Arguments mk {V D} _ _ _.
Arguments variables {V D} _.
Arguments polling {V D} _.
Arguments data {V D} _.

Definition initial {V D} : t V D := mk None false None.
Definition execute {V D} `{EqDecision V} (v : V) (q : t V D) : t V D :=
    mk (Some v) true (if decide (variables q = Some v) then data q else None).
Definition stopPolling {V D} (q : t V D) : t V D :=
    mk (variables q) false (data q).
Definition startPolling {V D} (q : t V D) : t V D :=
    mk (variables q) true (data q).
Definition deliver {V D} (d : D) (q : t V D) : t V D :=
    mk (variables q) (polling q) (Some d).
End LazyQuery.

(** The operations the page asks for, in the order it asks for them: the
    [Thread] query of a render with a new thread id, a call of the execute
    function of a lazy query (which Apollo answers from its cache when it
    can), a tick of a poll timer, a mutation. *)
Inductive Request :=
  | ThreadQ (threadId : JS.number)
  | ThreadResponseQ (responseId : Z)
  | GetThreadRecommendationQuestionsQ (threadId : JS.number)
  | CreateThreadResponseM (threadId : Z) (data : CreateThreadResponseInput.t)
  | GenerateThreadRecommendationQuestionsM (threadId : Z).

#[global] Instance Request_eq_dec : EqDecision Request.
Proof. solve_decision. Defined.

(** Whether the thread-response query, or the recommendation query, was
    executed among the operations [asked]. *)
Definition executedThreadResponse (asked : list Request) : bool :=
  existsb (λ r, match r with ThreadResponseQ _ => true | _ => false end) asked.

Definition executedThreadRecommendationQuestions (asked : list Request)
    : bool :=
  existsb (λ r, match r with
                | GetThreadRecommendationQuestionsQ _ => true
                | _ => false
                end) asked.

(** The values the effects depend on, as one render computed them. *)
Module Deps.
Record t := mk {
    threadId : option JS.number;
    thread : option Thread.t;
    isFinished : bool;
    recommendedQuestions : option RecommendedQuestionsTask.t }.
#[global] Instance Deps_eq_dec : EqDecision t.
Proof. solve_decision. Defined.
End Deps.

(** ** The state of the page *)
Record HomeThread := mkHomeThread {
  (* [useParams()] *)
  params : option (gmap string JS.ParamValue);
  (* the conversations in the Apollo cache, by the [threadId] they were
     asked with; a response is kept once, under its id, and belongs to one
     conversation *)
  cache : gmap JS.number Thread.t;
  threadResponseResult : LazyQuery.t Z ThreadResponse.t;
  threadRecommendationQuestionsResult :
    LazyQuery.t JS.number RecommendedQuestionsTask.t;
  askPrompt : AskPrompt.t;
  showRecommendedQuestions : bool;
  (* [$prompt]: whether the prompt's result panel is open *)
  promptOpen : bool;
  (* the dependencies of the last render, [None] before the first one *)
  rendered : option Deps.t;
  requests : list Request;
  (* [console.error] *)
  console : list Exn;
  (* exceptions no handler of the page caught *)
  uncaught : list Exn }.

Definition set_params v (s : HomeThread) : HomeThread :=
  mkHomeThread v (cache s) (threadResponseResult s)
    (threadRecommendationQuestionsResult s) (askPrompt s)
    (showRecommendedQuestions s) (promptOpen s) (rendered s) (requests s)
    (console s) (uncaught s).
Definition set_cache v (s : HomeThread) : HomeThread :=
  mkHomeThread (params s) v (threadResponseResult s)
    (threadRecommendationQuestionsResult s) (askPrompt s)
    (showRecommendedQuestions s) (promptOpen s) (rendered s) (requests s)
    (console s) (uncaught s).
Definition set_threadResponseResult v (s : HomeThread) : HomeThread :=
  mkHomeThread (params s) (cache s) v
    (threadRecommendationQuestionsResult s) (askPrompt s)
    (showRecommendedQuestions s) (promptOpen s) (rendered s) (requests s)
    (console s) (uncaught s).
Definition set_threadRecommendationQuestionsResult v (s : HomeThread)
    : HomeThread :=
  mkHomeThread (params s) (cache s) (threadResponseResult s) v (askPrompt s)
    (showRecommendedQuestions s) (promptOpen s) (rendered s) (requests s)
    (console s) (uncaught s).
Definition set_askPrompt v (s : HomeThread) : HomeThread :=
  mkHomeThread (params s) (cache s) (threadResponseResult s)
    (threadRecommendationQuestionsResult s) v
    (showRecommendedQuestions s) (promptOpen s) (rendered s) (requests s)
    (console s) (uncaught s).
Definition set_showRecommendedQuestions v (s : HomeThread) : HomeThread :=
  mkHomeThread (params s) (cache s) (threadResponseResult s)
    (threadRecommendationQuestionsResult s) (askPrompt s)
    v (promptOpen s) (rendered s) (requests s) (console s) (uncaught s).
Definition set_promptOpen v (s : HomeThread) : HomeThread :=
  mkHomeThread (params s) (cache s) (threadResponseResult s)
    (threadRecommendationQuestionsResult s) (askPrompt s)
    (showRecommendedQuestions s) v (rendered s) (requests s) (console s)
    (uncaught s).
Definition set_rendered v (s : HomeThread) : HomeThread :=
  mkHomeThread (params s) (cache s) (threadResponseResult s)
    (threadRecommendationQuestionsResult s) (askPrompt s)
    (showRecommendedQuestions s) (promptOpen s) v (requests s) (console s)
    (uncaught s).
Definition set_requests v (s : HomeThread) : HomeThread :=
  mkHomeThread (params s) (cache s) (threadResponseResult s)
    (threadRecommendationQuestionsResult s) (askPrompt s)
    (showRecommendedQuestions s) (promptOpen s) (rendered s) v (console s)
    (uncaught s).
Definition set_console v (s : HomeThread) : HomeThread :=
  mkHomeThread (params s) (cache s) (threadResponseResult s)
    (threadRecommendationQuestionsResult s) (askPrompt s)
    (showRecommendedQuestions s) (promptOpen s) (rendered s) (requests s) v
    (uncaught s).
Definition set_uncaught v (s : HomeThread) : HomeThread :=
  mkHomeThread (params s) (cache s) (threadResponseResult s)
    (threadRecommendationQuestionsResult s) (askPrompt s)
    (showRecommendedQuestions s) (promptOpen s) (rendered s) (requests s)
    (console s) v.

(** ** What a render computes *)

(** [useMemo(() => Number(params?.id) || null, [params])] *)
Definition threadId (s : HomeThread) : option JS.number :=
  JS.orNull (JS.Number (p ← params s; p !! "id")).

(** [skip: threadId === null] *)
Definition skip (threadId : option JS.number) : bool :=
  bool_decide (threadId = None).

(** What the cache holds for [variables: { threadId }]. *)
Definition cached (s : HomeThread) : ThreadQuery.t :=
  ThreadQuery.mk (tid ← threadId s; cache s !! tid).

(** [data] of [useThreadQuery]: nothing while the query is skipped. *)
Definition data (s : HomeThread) : option ThreadQuery.t :=
  if skip (threadId s) then None else Some (cached s).

(** [useMemo(() => data?.thread || null, [data])] *)
Definition thread (s : HomeThread) : option Thread.t :=
  d ← data s; ThreadQuery.thread d.

(** [useMemo(() => threadResponseResult.data?.threadResponse || null, ...)] *)
Definition threadResponse (s : HomeThread) : option ThreadResponse.t :=
  LazyQuery.data (threadResponseResult s).

(** [threadRecommendationQuestionsResult.data
       ?.getThreadRecommendationQuestions || null] *)
Definition recommendedQuestions (s : HomeThread)
    : option RecommendedQuestionsTask.t :=
  LazyQuery.data (threadRecommendationQuestionsResult s).

(** ** The monad of the page's code: state and exceptions *)
Definition M (A : Type) : Type := HomeThread → Completion A * HomeThread.

#[global] Instance M_ret : MRet M := λ A a s, (Normal a, s).
#[global] Instance M_bind : MBind M := λ A B f m s,
  match m s with
  | (Normal a, s') => f a s'
  | (Throw e, s') => (Throw e, s')
  end.

Definition throw {A} (e : Exn) : M A := λ s, (Throw e, s).
Definition gets {A} (f : HomeThread → A) : M A := λ s, (Normal (f s), s).
Definition modify (f : HomeThread → HomeThread) : M () :=
  λ s, (Normal (), f s).
Definition completion {A} (c : Completion A) : M A := λ s, (c, s).

(** [try { m } catch (error) { h(error) }] *)
Definition tryCatch (m : M ()) (h : Exn → M ()) : M () := λ s,
  match m s with
  | (Normal a, s') => (Normal a, s')
  | (Throw e, s') => h e s'
  end.

Definition when (b : bool) (m : M ()) : M () := if b then m else mret ().

(** ** The functions the hooks return *)

Definition request (r : Request) : M () :=
  modify (λ s, set_requests (requests s ++ [r]) s).

(** [updateQuery] of the [Thread] query: its function is given what the
    cache holds for the current variables, and what it returns is written
    back under the same variables. *)
Definition updateThreadQuery
    (mapFn : ThreadQuery.t → Completion ThreadQuery.t) : M () :=
  prev ← gets cached;
  next ← completion (mapFn prev);
  tid ← gets threadId;
  match tid, ThreadQuery.thread next with
  | Some tid, Some t => modify (λ s, set_cache (<[tid := t]> (cache s)) s)
  | _, _ => mret ()
  end.

(** [fetchThreadResponse({ variables: { responseId } })]: the lazy query is
    executed with these variables; the call is what the page asks for,
    whether Apollo then goes to the network or answers from its cache. *)
Definition fetchThreadResponse (responseId : Z) : M () :=
  modify (λ s, set_threadResponseResult
                 (LazyQuery.execute responseId (threadResponseResult s)) s);;
  request (ThreadResponseQ responseId).

Definition threadResponseResult_stopPolling : M () :=
  modify (λ s, set_threadResponseResult
                 (LazyQuery.stopPolling (threadResponseResult s)) s).

Definition threadResponseResult_startPolling : M () :=
  modify (λ s, set_threadResponseResult
                 (LazyQuery.startPolling (threadResponseResult s)) s).

(** [fetchThreadRecommendationQuestions({ variables: { threadId } })] *)
Definition fetchThreadRecommendationQuestions (threadId : JS.number) : M () :=
  modify (λ s, set_threadRecommendationQuestionsResult
                 (LazyQuery.execute threadId
                    (threadRecommendationQuestionsResult s)) s);;
  request (GetThreadRecommendationQuestionsQ threadId).

Definition threadRecommendationQuestionsResult_stopPolling : M () :=
  modify (λ s, set_threadRecommendationQuestionsResult
                 (LazyQuery.stopPolling
                    (threadRecommendationQuestionsResult s)) s).

Definition threadRecommendationQuestionsResult_startPolling : M () :=
  modify (λ s, set_threadRecommendationQuestionsResult
                 (LazyQuery.startPolling
                    (threadRecommendationQuestionsResult s)) s).

Definition askPrompt_onStopPolling : M () :=
  modify (λ s, set_askPrompt (AskPrompt.onStopPolling (askPrompt s)) s).

Definition askPrompt_onStoreThreadQuestions (questions : list string) : M () :=
  modify (λ s, set_askPrompt
                 (AskPrompt.onStoreThreadQuestions questions (askPrompt s)) s).

(** [$prompt.current?.close()] *)
Definition prompt_close : M () := modify (set_promptOpen false).

Definition setShowRecommendedQuestions (b : bool) : M () :=
  modify (set_showRecommendedQuestions b).

Definition console_error (e : Exn) : M () :=
  modify (λ s, set_console (console s ++ [e]) s).

(** ** The callbacks of the mutation and of the lazy query *)

(** [onCompleted] of [useCreateThreadResponseMutation] *)
Definition createThreadResponse_onCompleted
    (nextResponse : ThreadResponse.t) : M () :=
  updateThreadQuery (appendResponse nextResponse).

(** [onCompleted] of [useThreadResponseLazyQuery] *)
Definition threadResponse_onCompleted (nextResponse : ThreadResponse.t)
    : M () :=
  updateThreadQuery (mergeResponse nextResponse).

(** [res.question || []] under [flatMap]: an absent or empty question
    contributes nothing. *)
Definition questionsOf (responses : list ThreadResponse.t) : list string :=
  responses ≫= λ res,
    match ThreadResponse.question res with
    | Some q => if decide (q = "") then [] else [q]
    | None => []
    end.

Section Effects.

(** [getIsFinished] is exported by the [useAskPrompt] hook, outside this
    file; the page applies it to a status that may be [undefined]. *)
Variable getIsFinished : option Status.t → bool.

(** [useMemo(() => getIsFinished(threadResponse?.status), [threadResponse])] *)
Definition isFinished (s : HomeThread) : bool :=
  getIsFinished (ThreadResponse.status <$> threadResponse s).

(** [(thread?.responses || []).find(
       (response) => !getIsFinished(response.status))] *)
Definition unfinishedRespose (thread : option Thread.t)
    : option ThreadResponse.t :=
  List.find (λ response, negb (getIsFinished (Some (ThreadResponse.status response))))
    (from_option Thread.responses [] thread).

(** [useEffect(..., [threadId])]: stop all requests when change thread *)
Definition effect_threadId (threadId : option JS.number) : M () :=
  askPrompt_onStopPolling;;
  threadResponseResult_stopPolling;;
  threadRecommendationQuestionsResult_stopPolling;;
  prompt_close;;
  match threadId with
  | Some threadId =>
      fetchThreadRecommendationQuestions threadId;;
      setShowRecommendedQuestions true
  | None => mret ()
  end.

(** [useEffect(..., [thread])] *)
Definition effect_thread (thread : option Thread.t) : M () :=
  match unfinishedRespose thread with
  | Some response => fetchThreadResponse (ThreadResponse.id response)
  | None => mret ()
  end;;
  match thread with
  | Some t => askPrompt_onStoreThreadQuestions (questionsOf (Thread.responses t))
  | None => mret ()
  end.

(** [useEffect(..., [isFinished])] *)
Definition effect_isFinished (isFinished : bool) : M () :=
  when isFinished
    (threadResponseResult_stopPolling;;
     setShowRecommendedQuestions true).

(** [useEffect(..., [recommendedQuestions])] *)
Definition effect_recommendedQuestions
    (recommendedQuestions : option RecommendedQuestionsTask.t) : M () :=
  when (useAskPrompt.isRecommendedFinished
          (RecommendedQuestionsTask.status <$> recommendedQuestions))
    threadRecommendationQuestionsResult_stopPolling.

Definition deps (s : HomeThread) : Deps.t :=
  Deps.mk (threadId s) (thread s) (isFinished s) (recommendedQuestions s).

(** Whether a dependency differs from the last render's; every effect runs
    after the first render.  React compares with [Object.is]; the values
    here come from the Apollo cache, which hands out the same object while
    the data is the same, so the comparison is on the data. *)
Definition changed {A} `{EqDecision A} (f : Deps.t → A)
    (last : option Deps.t) (cur : Deps.t) : bool :=
  match last with
  | None => true
  | Some d => bool_decide (f d ≠ f cur)
  end.

(** The effects of a render, in the order the component declares them:
    those whose dependency is not what the render before had, and all of
    them after the first render. *)
Definition effects (last : option Deps.t) (cur : Deps.t) : M () :=
  when (changed Deps.threadId last cur) (effect_threadId (Deps.threadId cur));;
  when (changed Deps.thread last cur) (effect_thread (Deps.thread cur));;
  when (changed Deps.isFinished last cur)
    (effect_isFinished (Deps.isFinished cur));;
  when (changed Deps.recommendedQuestions last cur)
    (effect_recommendedQuestions (Deps.recommendedQuestions cur)).

(** One render and its effects: [useThreadQuery] asks for the thread when
    its variables are new and it is not skipped, then the effects run, each
    on the values this render computed.  Apollo takes up an execute at the
    render that follows the call, so a [stopPolling] of the same effects
    comes before it and does not stop it: the lazy queries that the effects
    executed poll when the effects are over. *)
Definition pass : M () :=
  cur ← gets deps;
  last ← gets rendered;
  modify (set_rendered (Some cur));;
  match Deps.threadId cur with
  | Some tid => when (changed Deps.threadId last cur) (request (ThreadQ tid))
  | None => mret ()
  end;;
  before ← gets requests;
  effects last cur;;
  after ← gets requests;
  when (executedThreadResponse (drop (length before) after))
    threadResponseResult_startPolling;;
  when (executedThreadRecommendationQuestions (drop (length before) after))
    threadRecommendationQuestionsResult_startPolling.

(** React renders again while what the effects did changes what the page
    computes, and is done when a render finds the dependencies of the one
    before. *)
Fixpoint renders (n : nat) : M () :=
  match n with
  | O => mret ()
  | S n =>
      cur ← gets deps;
      last ← gets rendered;
      if decide (last = Some cur) then mret () else pass;; renders n
  end.

(** A second render has only the effects on [isFinished] and on
    [recommendedQuestions] left to run, and they change nothing a render
    computes: the third finds the page as the second left it. *)
Definition render : M () := renders 3.

(** ** [onSelect]

    The results of the three awaited calls are arguments: what the mutation
    [createThreadResponse] and the mutation
    [generateThreadRecommendationQuestions] resolve to or reject with, and
    the first result of [fetchThreadResponse] (a query's promise resolves
    also when it has no data).  The page renders while [onSelect] waits.
    [thread] is the value of the render whose closure is called. *)

Definition createThreadResponse (threadId : Z)
    (data : CreateThreadResponseInput.t)
    (result : Completion ThreadResponse.t) : M ThreadResponse.t :=
  request (CreateThreadResponseM threadId data);;
  render;;
  next ← completion result;
  createThreadResponse_onCompleted next;;
  mret next.

Definition generateThreadRecommendationQuestions (threadId : Z)
    (result : Completion ()) : M () :=
  request (GenerateThreadRecommendationQuestionsM threadId);;
  render;;
  completion result.

(** The Apollo cache keeps a response once, under its id: what a
    conversation in the cache shows for that id is the answer last written
    for it. *)
Definition writeThreadResponse (next : ThreadResponse.t)
    (cache : gmap JS.number Thread.t) : gmap JS.number Thread.t :=
  (λ t, Thread.mk (Thread.id t) (Thread.sql t)
          (mergeResponses next (Thread.responses t))) <$> cache.

(** An answer of the thread-response query: Apollo writes it to its cache,
    makes it the data of the query and calls [onCompleted]. *)
Definition deliverThreadResponse (next : ThreadResponse.t) : M () :=
  modify (λ s, set_cache (writeThreadResponse next (cache s)) s);;
  modify (λ s, set_threadResponseResult
                 (LazyQuery.deliver next (threadResponseResult s)) s);;
  threadResponse_onCompleted next.

Definition awaitThreadResponse (responseId : Z)
    (result : option ThreadResponse.t) : M () :=
  fetchThreadResponse responseId;;
  render;;
  match result with
  | Some next => deliverThreadResponse next
  | None => mret ()
  end.

(** [thread.id], a [TypeError] when [thread] is [null] *)
Definition thread_id (thread : option Thread.t) : M Z :=
  match thread with
  | Some t => mret (Thread.id t)
  | None => throw TypeError
  end.

Definition onSelect (thread : option Thread.t)
    (payload : CreateThreadResponseInput.t)
    (created : Completion ThreadResponse.t)
    (generated : Completion ())
    (fetched : option ThreadResponse.t) : M () :=
  tryCatch
    (askPrompt_onStopPolling;;
     id ← thread_id thread;
     response ← createThreadResponse id payload created;
     id ← thread_id thread;
     generateThreadRecommendationQuestions id generated;;
     setShowRecommendedQuestions false;;
     awaitThreadResponse (ThreadResponse.id response) fetched;;
     id ← thread_id thread;
     fetchThreadRecommendationQuestions (JS.ofZ id))
    console_error.

(** ** Events

    What reaches the page from outside: the first render, a new route, a
    result of one of the three queries, a tick of one of the two polling
    timers, the user's choice of a candidate.  An error of the [Thread]
    query pushes the home route ([onError]), which comes back as a new
    route; the view modal does not touch this state. *)
Inductive Event :=
  | Mount
  | Route (params : option (gmap string JS.ParamValue))
  | ThreadResult (threadId : JS.number) (thread : Thread.t)
  | ThreadResponseResult (next : ThreadResponse.t)
  | RecommendationResult (next : RecommendedQuestionsTask.t)
  | ThreadResponseTick
  | RecommendationTick
  | Select (payload : CreateThreadResponseInput.t)
      (created : Completion ThreadResponse.t)
      (generated : Completion ())
      (fetched : option ThreadResponse.t).

Definition handler (e : Event) : M () :=
  match e with
  | Mount => mret ()
  | Route p => modify (set_params p)
  | ThreadResult tid t => modify (λ s, set_cache (<[tid := t]> (cache s)) s)
  | ThreadResponseResult next => deliverThreadResponse next
  | RecommendationResult next =>
      modify (λ s, set_threadRecommendationQuestionsResult
                     (LazyQuery.deliver next
                        (threadRecommendationQuestionsResult s)) s)
  | ThreadResponseTick =>
      q ← gets threadResponseResult;
      match LazyQuery.polling q, LazyQuery.variables q with
      | true, Some responseId => request (ThreadResponseQ responseId)
      | _, _ => mret ()
      end
  | RecommendationTick =>
      q ← gets threadRecommendationQuestionsResult;
      match LazyQuery.polling q, LazyQuery.variables q with
      | true, Some tid => request (GetThreadRecommendationQuestionsQ tid)
      | _, _ => mret ()
      end
  | Select payload created generated fetched =>
      last ← gets rendered;
      onSelect (last ≫= Deps.thread) payload created generated fetched
  end.

(** One event: its handler, then the render the change calls for.  An
    exception that leaves the handler is no one's to catch. *)
Definition step (s : HomeThread) (e : Event) : HomeThread :=
  let s' :=
    match handler e s with
    | (Normal _, s') => s'
    | (Throw x, s') => set_uncaught (uncaught s' ++ [x]) s'
    end in
  (render s').2.

Definition run (s : HomeThread) (es : list Event) : HomeThread :=
  foldl step s es.

End Effects.

Definition initial (params : option (gmap string JS.ParamValue)) : HomeThread :=
  mkHomeThread params ∅ LazyQuery.initial LazyQuery.initial
    (AskPrompt.mk false []) false false None [] [] [].

(** ** Vocabulary of the properties *)

(** A computation that ends normally and leaves the route and the cached
    conversations as they are. *)
Definition steady {A} (m : M A) : Prop :=
  ∀ s, ∃ a, (m s).1 = Normal a ∧
            cache (m s).2 = cache s ∧ params (m s).2 = params s.

(** [s'] is [s] after effects that sent nothing and executed nothing: a
    poller may have been stopped and the recommended questions shown, the
    rest is as it was. *)
Definition calmer (s s' : HomeThread) : Prop :=
  params s' = params s ∧ cache s' = cache s ∧
  requests s' = requests s ∧
  askPrompt s' = askPrompt s ∧ promptOpen s' = promptOpen s ∧
  console s' = console s ∧ uncaught s' = uncaught s ∧
  LazyQuery.variables (threadResponseResult s')
    = LazyQuery.variables (threadResponseResult s) ∧
  LazyQuery.data (threadResponseResult s')
    = LazyQuery.data (threadResponseResult s) ∧
  (LazyQuery.polling (threadResponseResult s') = true →
   LazyQuery.polling (threadResponseResult s) = true) ∧
  LazyQuery.variables (threadRecommendationQuestionsResult s')
    = LazyQuery.variables (threadRecommendationQuestionsResult s) ∧
  LazyQuery.data (threadRecommendationQuestionsResult s')
    = LazyQuery.data (threadRecommendationQuestionsResult s) ∧
  (LazyQuery.polling (threadRecommendationQuestionsResult s') = true →
   LazyQuery.polling (threadRecommendationQuestionsResult s) = true) ∧
  (showRecommendedQuestions s = true → showRecommendedQuestions s' = true).

(** The number of responses of the active conversation. *)
Definition responsesLength (s : HomeThread) : option nat :=
  (λ t, length (Thread.responses t)) <$> thread s.

(** The events under which the page stays with its conversation and the
    copy of it that it has: all but a new route and a new result of the
    [Thread] query. *)
Definition conversation_event (e : Event) : bool :=
  match e with
  | Route _ | ThreadResult _ _ => false
  | _ => true
  end.

(** The calls of [createThreadResponse] that succeed. *)
Definition creation (e : Event) : nat :=
  match e with
  | Select _ (Normal _) _ _ => 1
  | _ => 0
  end.

Definition creations (es : list Event) : nat := sum_list (creation <$> es).

(** [getIsFinished] as the table of its six values. *)
Definition statusTable (none pending generating finished failed stopped : bool)
    (status : option Status.t) : bool :=
  match status with
  | None => none
  | Some Status.pending => pending
  | Some Status.generating => generating
  | Some Status.finished => finished
  | Some Status.failed => failed
  | Some Status.stopped => stopped
  end.

(** A page with no conversation selected, at rest: the thread id is null,
    the last render had no thread, and no poller polls. *)
Definition idle (s : HomeThread) : Prop :=
  threadId s = None ∧
  (∃ d, rendered s = Some d ∧ Deps.thread d = None) ∧
  LazyQuery.polling (threadResponseResult s) = false ∧
  LazyQuery.polling (threadRecommendationQuestionsResult s) = false.

(** A new route, the one event that takes the page to another conversation. *)
Definition is_route (e : Event) : bool :=
  match e with Route _ => true | _ => false end.

(** The operations that are mutations. *)
Definition is_mutation (r : Request) : bool :=
  match r with
  | CreateThreadResponseM _ _ | GenerateThreadRecommendationQuestionsM _ => true
  | _ => false
  end.

(** The mutations among the operations sent so far, in order. *)
Definition mutations (s : HomeThread) : list Request :=
  filter is_mutation (requests s).

(** A computation that sends no mutation, however it ends. *)
Definition sends_no_mutation {A} (m : M A) : Prop :=
  ∀ s, mutations (m s).2 = mutations s.

(** The mutations of one event on the thread [id]: a choice of the user
    sends the creation, and the generation of recommendations once the
    creation has succeeded. *)
Definition selection_mutations (id : Z) (e : Event) : list Request :=
  match e with
  | Select payload created _ _ =>
      CreateThreadResponseM id payload ::
      match created with
      | Normal _ => [GenerateThreadRecommendationQuestionsM id]
      | Throw _ => []
      end
  | _ => []
  end.

(** The responses after a choice of the user whose creation succeeded. *)
Definition selected (next : ThreadResponse.t) (generated : Completion ())
    (fetched : option ThreadResponse.t) (responses : list ThreadResponse.t)
    : list ThreadResponse.t :=
  match generated, fetched with
  | Normal _, Some first => mergeResponses first (responses ++ [next])
  | _, _ => responses ++ [next]
  end.

(** The bytes of a decimal numeral: all digits. *)
Definition digitBytes (l : list Z) : Prop := Forall (λ c, 48 ≤ c ≤ 57) l.

(** The value of the digits held in bytes. *)
Definition bytesValue (l : list Z) : Z :=
  JS.digitsValue 10 ((λ c, c - 48) <$> l).

(** The integer a number stands for, when it is one. *)
Definition integerValue (x : JS.number) : option Z :=
  match x with
  | JS.Finite m e => if 0 <=? e then Some (m * 2 ^ e) else None
  | _ => None
  end.

(** * Properties *)

(** The renders are unfolded by hand. *)
Arguments pass : simpl never.
Arguments render : simpl never.

(** Unfolds the monad and the functions of the hooks. *)
Ltac run_M :=
  repeat (unfold mbind, M_bind, mret, M_ret, modify, gets, completion, throw,
            when, request, fetchThreadResponse,
            fetchThreadRecommendationQuestions,
            threadResponseResult_stopPolling,
            threadRecommendationQuestionsResult_stopPolling,
            threadResponseResult_startPolling,
            threadRecommendationQuestionsResult_startPolling,
            askPrompt_onStopPolling, askPrompt_onStoreThreadQuestions,
            prompt_close, setShowRecommendedQuestions, console_error;
          simpl).

(** Case analysis on the conditions of a render. *)
Ltac split_conditions :=
  repeat match goal with
    | |- context [bool_decide ?P] => destruct (bool_decide P)
    | |- context [useAskPrompt.isRecommendedFinished ?x] =>
        destruct (useAskPrompt.isRecommendedFinished x)
    | |- context [match ?x with Some _ => _ | None => _ end] =>
        is_var x; destruct x
    | |- context [if ?x then _ else _] => is_var x; destruct x
    end.

(** ** The merge, on lists *)

Lemma mergeResponses_length next responses :
  length (mergeResponses next responses) = length responses.
Proof. unfold mergeResponses. apply length_fmap. Qed.

Lemma mergeResponses_lookup next (responses : list ThreadResponse.t) i response :
  responses !! i = Some response →
  mergeResponses next responses !! i =
    Some (if decide (ThreadResponse.id response = ThreadResponse.id next)
          then next else response).
Proof.
  intros H. unfold mergeResponses. rewrite list_lookup_fmap, H. reflexivity.
Qed.

Lemma mergeResponses_no_match next (responses : list ThreadResponse.t) :
  (∀ response, response ∈ responses →
     ThreadResponse.id response ≠ ThreadResponse.id next) →
  mergeResponses next responses = responses.
Proof.
  induction responses as [|r rs IH]; intros H; [reflexivity|].
  unfold mergeResponses in *. cbn [fmap list_fmap].
  rewrite decide_False by (apply H; left).
  f_equal. apply IH. intros x Hx. apply H. by right.
Qed.

(** ** The cache under [updateThreadQuery] *)

Lemma thread_Some s t :
  thread s = Some t ↔ ∃ tid, threadId s = Some tid ∧ cache s !! tid = Some t.
Proof.
  unfold thread, data, skip, cached.
  destruct (threadId s) as [tid|]; cbn.
  - split; [eauto|]. by intros (? & [= <-] & ?).
  - split; [done|]. by intros (? & ? & ?).
Qed.

Lemma thread_cached s : ThreadQuery.thread (cached s) = thread s.
Proof.
  unfold thread, data, skip, cached. by destruct (threadId s).
Qed.

Lemma cached_eta s : cached s = ThreadQuery.mk (thread s).
Proof. rewrite <- thread_cached. by destruct (cached s). Qed.

Lemma set_cache_same s : set_cache (cache s) s = s.
Proof. by destruct s. Qed.

Lemma thread_set_cache s tid t :
  threadId s = Some tid → thread (set_cache (<[tid := t]> (cache s)) s) = Some t.
Proof.
  intros H. apply thread_Some. exists tid. split; [exact H|].
  cbn. apply lookup_insert_eq.
Qed.

Lemma updateThreadQuery_absent mapFn s :
  thread s = None →
  mapFn (ThreadQuery.mk None) = Throw TypeError →
  updateThreadQuery mapFn s = (Throw TypeError, s).
Proof.
  intros H Hf. unfold updateThreadQuery. run_M.
  rewrite cached_eta, H, Hf. reflexivity.
Qed.

Lemma updateThreadQuery_present mapFn s tid t t' :
  threadId s = Some tid → cache s !! tid = Some t →
  mapFn (ThreadQuery.mk (Some t)) = Normal (ThreadQuery.mk (Some t')) →
  updateThreadQuery mapFn s
  = (Normal (), set_cache (<[tid := t']> (cache s)) s).
Proof.
  intros Htid Hc Hf. unfold updateThreadQuery. run_M.
  assert (thread s = Some t) as Ht by (apply thread_Some; eauto).
  rewrite cached_eta, Ht, Hf. cbn. rewrite Htid. reflexivity.
Qed.

Lemma merge_onCompleted_present next s tid t :
  threadId s = Some tid → cache s !! tid = Some t →
  threadResponse_onCompleted next s
  = (Normal (),
     set_cache (<[tid := Thread.mk (Thread.id t) (Thread.sql t)
                           (mergeResponses next (Thread.responses t))]>
                  (cache s)) s).
Proof.
  intros Htid Hc. unfold threadResponse_onCompleted.
  by apply updateThreadQuery_present with (t := t).
Qed.

Lemma append_onCompleted_present next s tid t :
  threadId s = Some tid → cache s !! tid = Some t →
  createThreadResponse_onCompleted next s
  = (Normal (),
     set_cache (<[tid := Thread.mk (Thread.id t) (Thread.sql t)
                           (Thread.responses t ++ [next])]>
                  (cache s)) s).
Proof.
  intros Htid Hc. unfold createThreadResponse_onCompleted.
  by apply updateThreadQuery_present with (t := t).
Qed.

Lemma merge_onCompleted_no_match next s :
  (∀ t response, thread s = Some t → response ∈ Thread.responses t →
     ThreadResponse.id response ≠ ThreadResponse.id next) →
  (threadResponse_onCompleted next s).2 = s.
Proof.
  intros H. destruct (thread s) as [t|] eqn:Ht.
  - apply thread_Some in Ht as Ht'. destruct Ht' as (tid & Htid & Hc).
    rewrite (merge_onCompleted_present _ _ _ _ Htid Hc). cbn.
    rewrite mergeResponses_no_match by eauto.
    replace (Thread.mk _ _ _) with t by (by destruct t).
    rewrite insert_id by done. apply set_cache_same.
  - unfold threadResponse_onCompleted.
    by rewrite updateThreadQuery_absent.
Qed.

(** ** Merging a polled response *)

(** C2. A polled update is merged into the active conversation by id: the
    entry at every position is the update where its id is the update's id
    and is what it was before otherwise, so the length and the order of the
    responses stay; the conversation keeps its id and the conversations
    cached under other ids are not touched. *)
Theorem merge_replaces_only_matching_id s next t :
  thread s = Some t →
  let s' := (threadResponse_onCompleted next s).2 in
  ∃ t', thread s' = Some t' ∧
    Thread.id t' = Thread.id t ∧
    length (Thread.responses t') = length (Thread.responses t) ∧
    (∀ i response, Thread.responses t !! i = Some response →
       Thread.responses t' !! i =
         Some (if decide (ThreadResponse.id response = ThreadResponse.id next)
               then next else response)) ∧
    (∀ tid, threadId s ≠ Some tid → cache s' !! tid = cache s !! tid).
Proof.
  intros Ht s'. apply thread_Some in Ht as (tid & Htid & Hc).
  subst s'. rewrite (merge_onCompleted_present _ _ _ _ Htid Hc). cbn [snd].
  eexists. split; [by apply thread_set_cache|]. cbn.
  split; [reflexivity|]. split; [apply mergeResponses_length|].
  split; [intros; by apply mergeResponses_lookup|].
  intros tid' Hne. apply lookup_insert_ne. congruence.
Qed.

Lemma merge_replaces_only_matching_id_witness :
  let a := ThreadResponse.mk 1 (Some "a") Status.finished None None in
  let b := ThreadResponse.mk 2 (Some "b") Status.pending None None in
  let b' := ThreadResponse.mk 2 (Some "b") Status.finished None None in
  let s := set_cache {[ JS.ofZ 5 := Thread.mk 5 None [a; b] ]}
             (initial (Some {[ "id" := JS.PString "5" ]})) in
  ∃ t', thread (threadResponse_onCompleted b' s).2 = Some t' ∧
        Thread.responses t' = [a; b'].
Proof.
  intros a b b' s.
  destruct (merge_replaces_only_matching_id s b' (Thread.mk 5 None [a; b]))
    as (t' & Ht' & _ & Hlen & Hat & _); [by vm_compute|].
  exists t'. split; [exact Ht'|].
  pose proof (Hat 0%nat a eq_refl) as H0. pose proof (Hat 1%nat b eq_refl) as H1.
  destruct (Thread.responses t') as [|x [|y [|z l]]]; try discriminate Hlen.
  cbn in H0, H1. injection H0 as ->. injection H1 as ->. reflexivity.
Defined.

(** C9. An update whose id is the id of no entry of the active conversation
    changes nothing: the callback ends normally in the state it started in,
    the responses are what they were and the update is not added to them. *)
Theorem merge_unknown_id_is_noop s next t :
  thread s = Some t →
  (∀ response, response ∈ Thread.responses t →
     ThreadResponse.id response ≠ ThreadResponse.id next) →
  threadResponse_onCompleted next s = (Normal (), s) ∧
  mergeResponses next (Thread.responses t) = Thread.responses t ∧
  next ∉ Thread.responses t.
Proof.
  intros Ht Hno. split; [|split].
  - pose proof (merge_onCompleted_no_match next s) as H.
    apply thread_Some in Ht as Ht'. destruct Ht' as (tid & Htid & Hc).
    rewrite (merge_onCompleted_present _ _ _ _ Htid Hc) in *. cbn in H.
    rewrite H; [reflexivity|]. intros t0 r Ht0. rewrite Ht in Ht0.
    injection Ht0 as <-. apply Hno.
  - by apply mergeResponses_no_match.
  - intros Hin. by apply (Hno next Hin).
Qed.

Lemma merge_unknown_id_is_noop_witness :
  let a := ThreadResponse.mk 1 (Some "a") Status.pending None None in
  let c := ThreadResponse.mk 9 (Some "c") Status.finished None None in
  let s := set_cache {[ JS.ofZ 5 := Thread.mk 5 None [a] ]}
             (initial (Some {[ "id" := JS.PString "5" ]})) in
  threadResponse_onCompleted c s = (Normal (), s).
Proof.
  intros a c s.
  refine (proj1 (merge_unknown_id_is_noop s c (Thread.mk 5 None [a]) _ _)).
  - by vm_compute.
  - intros r Hr. apply list_elem_of_singleton in Hr as ->. by vm_compute.
Defined.

(** ** An answer of the thread-response query *)

Lemma mergeResponses_idemp next (responses : list ThreadResponse.t) :
  mergeResponses next (mergeResponses next responses)
  = mergeResponses next responses.
Proof.
  unfold mergeResponses. rewrite <- list_fmap_compose.
  apply list_fmap_ext. intros i r _. cbn.
  destruct (decide (ThreadResponse.id r = ThreadResponse.id next)).
  - by rewrite decide_True.
  - by rewrite decide_False.
Qed.

Lemma thread_writeThreadResponse next s :
  thread (set_cache (writeThreadResponse next (cache s)) s)
  = (λ t, Thread.mk (Thread.id t) (Thread.sql t)
            (mergeResponses next (Thread.responses t))) <$> thread s.
Proof.
  unfold thread, data, cached, skip, threadId. cbn [params set_cache cache].
  destruct (JS.orNull _) as [tid|]; cbn; [|reflexivity].
  unfold writeThreadResponse. rewrite lookup_fmap.
  by destruct (cache s !! tid).
Qed.


(** What the delivery of an answer leaves: the answer written to the cache
    and made the data of the query; [onCompleted] finds it merged already,
    or throws where the page has no thread. *)
Lemma deliverThreadResponse_spec next s :
  deliverThreadResponse next s
  = (match thread s with Some _ => Normal () | None => Throw TypeError end,
     set_threadResponseResult
       (LazyQuery.deliver next (threadResponseResult s))
       (set_cache (writeThreadResponse next (cache s)) s)).
Proof.
  unfold deliverThreadResponse. run_M.
  set (s0 := set_threadResponseResult _ _).
  assert (thread s0
          = (λ t, Thread.mk (Thread.id t) (Thread.sql t)
                    (mergeResponses next (Thread.responses t))) <$> thread s)
    as Hth by apply thread_writeThreadResponse.
  destruct (thread s) as [t|]; cbn in Hth.
  - apply thread_Some in Hth as (tid & Htid & Hc).
    rewrite (merge_onCompleted_present _ _ _ _ Htid Hc).
    cbn [Thread.id Thread.sql Thread.responses].
    rewrite mergeResponses_idemp, insert_id by done.
    by rewrite set_cache_same.
  - unfold threadResponse_onCompleted.
    by rewrite updateThreadQuery_absent.
Qed.

(** ** The effects, one by one *)

(** The effect on [threadId] first stops the asking-task poller, the
    thread-response poller and the recommendation poller, sending nothing;
    then, for a thread id that is not null, it fetches the recommendations
    of that thread, which is the one operation it sends, and the
    recommendation poller polls for the new id; for a null id it does
    nothing more. *)
Lemma effect_threadId_sequence tid s :
  ∃ s0,
    AskPrompt.polling (askPrompt s0) = false ∧
    LazyQuery.polling (threadResponseResult s0) = false ∧
    LazyQuery.polling (threadRecommendationQuestionsResult s0) = false ∧
    requests s0 = requests s ∧
    let s' := (effect_threadId tid s).2 in
    AskPrompt.polling (askPrompt s') = false ∧
    LazyQuery.polling (threadResponseResult s') = false ∧
    match tid with
    | Some threadId =>
        effect_threadId tid s
        = (fetchThreadRecommendationQuestions threadId;;
           setShowRecommendedQuestions true) s0 ∧
        requests s' = requests s ++ [GetThreadRecommendationQuestionsQ threadId] ∧
        LazyQuery.polling (threadRecommendationQuestionsResult s') = true ∧
        LazyQuery.variables (threadRecommendationQuestionsResult s') = Some threadId
    | None =>
        effect_threadId tid s = (Normal (), s0) ∧
        requests s' = requests s
    end.
Proof.
  exists (((askPrompt_onStopPolling;;
            threadResponseResult_stopPolling;;
            threadRecommendationQuestionsResult_stopPolling;;
            prompt_close) : M ()) s).2.
  unfold effect_threadId. destruct tid; run_M; repeat split; reflexivity.
Qed.

Section Effects_facts.

Context (getIsFinished : option Status.t → bool).

Lemma unfinishedRespose_first (responses before after : list ThreadResponse.t)
    response id sql :
  responses = before ++ response :: after →
  Forall (λ r, getIsFinished (Some (ThreadResponse.status r)) = true) before →
  getIsFinished (Some (ThreadResponse.status response)) = false →
  unfinishedRespose getIsFinished (Some (Thread.mk id sql responses))
  = Some response.
Proof.
  intros -> Hb Hr. unfold unfinishedRespose. cbn.
  induction Hb as [|x l Hx _ IH]; cbn.
  - by rewrite Hr.
  - by rewrite Hx.
Qed.

Lemma unfinishedRespose_none thread :
  Forall (λ r, getIsFinished (Some (ThreadResponse.status r)) = true)
    (from_option Thread.responses [] thread) →
  unfinishedRespose getIsFinished thread = None.
Proof.
  unfold unfinishedRespose. induction 1 as [|x l Hx _ IH]; cbn; [done|].
  by rewrite Hx.
Qed.

(** The effect on [thread], on a state [s]. *)
Lemma effect_thread_fetches thread s :
  let s' := (effect_thread getIsFinished thread s).2 in
  match unfinishedRespose getIsFinished thread with
  | Some response =>
      requests s' = requests s ++ [ThreadResponseQ (ThreadResponse.id response)] ∧
      LazyQuery.polling (threadResponseResult s') = true ∧
      LazyQuery.variables (threadResponseResult s')
        = Some (ThreadResponse.id response) ∧
      requests (handler getIsFinished ThreadResponseTick s').2
        = requests s' ++ [ThreadResponseQ (ThreadResponse.id response)]
  | None =>
      requests s' = requests s ∧
      threadResponseResult s' = threadResponseResult s
  end.
Proof.
  intros s'. subst s'. unfold effect_thread.
  destruct (unfinishedRespose getIsFinished thread);
    destruct thread; run_M; repeat split; reflexivity.
Qed.

End Effects_facts.

(** ** What ends normally and never touches the conversations *)

Lemma steady_ret {A} (a : A) : steady (mret a : M A).
Proof. intros s. by exists a. Qed.

Lemma steady_bind {A B} (m : M A) (f : A → M B) :
  steady m → (∀ a, steady (f a)) → steady (m ≫= f).
Proof.
  intros Hm Hf s. unfold mbind, M_bind.
  destruct (Hm s) as (a & Ha & Hc & Hp).
  destruct (m s) as [c s1]; cbn in *; subst c.
  destruct (Hf a s1) as (b & Hb & Hc' & Hp').
  exists b. by rewrite Hc', Hp'.
Qed.

Lemma steady_modify (f : HomeThread → HomeThread) :
  (∀ s, cache (f s) = cache s) → (∀ s, params (f s) = params s) →
  steady (modify f).
Proof. intros Hc Hp s. exists (). cbn. eauto. Qed.

Lemma steady_gets {A} (f : HomeThread → A) : steady (gets f).
Proof. intros s. by exists (f s). Qed.

Lemma steady_when b (m : M ()) : steady m → steady (when b m).
Proof. destruct b; [done|]. intros _. apply steady_ret. Qed.

(** Proves [steady] by the structure of the code. *)
Ltac steady :=
  repeat first
    [ apply steady_ret
    | apply steady_gets
    | apply steady_modify; intros; reflexivity
    | apply steady_when
    | apply steady_bind; [|intros ?]
    | match goal with
      | |- steady (match ?x with _ => _ end) => destruct x
      end ].

Lemma steady_request r : steady (request r).
Proof. unfold request. steady. Qed.

Lemma steady_fetchThreadResponse responseId :
  steady (fetchThreadResponse responseId).
Proof. unfold fetchThreadResponse, request. steady. Qed.

Lemma steady_fetchThreadRecommendationQuestions tid :
  steady (fetchThreadRecommendationQuestions tid).
Proof. unfold fetchThreadRecommendationQuestions, request. steady. Qed.

Lemma steady_effect_threadId tid : steady (effect_threadId tid).
Proof.
  unfold effect_threadId, askPrompt_onStopPolling,
    threadResponseResult_stopPolling,
    threadRecommendationQuestionsResult_stopPolling, prompt_close,
    setShowRecommendedQuestions.
  steady; apply steady_fetchThreadRecommendationQuestions.
Qed.

Lemma steady_effect_thread gif thread : steady (effect_thread gif thread).
Proof.
  unfold effect_thread, askPrompt_onStoreThreadQuestions.
  steady; apply steady_fetchThreadResponse.
Qed.

Lemma steady_effect_isFinished b : steady (effect_isFinished b).
Proof.
  unfold effect_isFinished, threadResponseResult_stopPolling,
    setShowRecommendedQuestions. steady.
Qed.

Lemma steady_effect_recommendedQuestions rq :
  steady (effect_recommendedQuestions rq).
Proof.
  unfold effect_recommendedQuestions,
    threadRecommendationQuestionsResult_stopPolling. steady.
Qed.

Lemma steady_effects gif last cur : steady (effects gif last cur).
Proof.
  unfold effects. steady;
    first [ apply steady_effect_threadId
          | apply steady_effect_thread | apply steady_effect_isFinished
          | apply steady_effect_recommendedQuestions ].
Qed.

Lemma steady_pass gif : steady (pass gif).
Proof.
  unfold pass, threadResponseResult_startPolling,
    threadRecommendationQuestionsResult_startPolling.
  steady; first [ apply steady_request | apply steady_effects ].
Qed.

Lemma steady_renders gif n : steady (renders gif n).
Proof.
  induction n as [|n IH]; cbn [renders]; steady;
    first [apply steady_pass | apply IH].
Qed.

Lemma steady_render gif : steady (render gif).
Proof. apply steady_renders. Qed.

Lemma keeps_render gif s :
  cache (render gif s).2 = cache s ∧ params (render gif s).2 = params s.
Proof. by destruct (steady_render gif s) as (_ & _ & ? & ?). Qed.

Lemma threadId_ext s s' : params s = params s' → threadId s = threadId s'.
Proof. unfold threadId. by intros ->. Qed.

Lemma thread_ext s s' :
  cache s = cache s' → params s = params s' → thread s = thread s'.
Proof.
  intros Hc Hp. unfold thread, data, cached.
  rewrite (threadId_ext _ _ Hp), Hc. reflexivity.
Qed.

Lemma render_thread gif s : thread (render gif s).2 = thread s.
Proof. destruct (keeps_render gif s). by apply thread_ext. Qed.

Lemma render_threadId gif s : threadId (render gif s).2 = threadId s.
Proof. destruct (keeps_render gif s). by apply threadId_ext. Qed.

(** ** One render, and the renders that follow it *)

Lemma keeps_pass gif s :
  cache (pass gif s).2 = cache s ∧ params (pass gif s).2 = params s.
Proof. by destruct (steady_pass gif s) as (_ & _ & ? & ?). Qed.

Lemma pass_thread gif s : thread (pass gif s).2 = thread s.
Proof. destruct (keeps_pass gif s). by apply thread_ext. Qed.

Lemma pass_threadId gif s : threadId (pass gif s).2 = threadId s.
Proof. destruct (keeps_pass gif s). by apply threadId_ext. Qed.

(** The operations the effects of a render ask for: the recommendations of
    a new thread, then the first unfinished response of a new conversation. *)
Lemma effects_requests gif last cur s :
  requests (effects gif last cur s).2
  = requests s
    ++ (if changed Deps.threadId last cur
        then from_option (λ tid, [GetThreadRecommendationQuestionsQ tid]) []
               (Deps.threadId cur)
        else [])
    ++ (if changed Deps.thread last cur
        then from_option (λ r, [ThreadResponseQ (ThreadResponse.id r)]) []
               (unfinishedRespose gif (Deps.thread cur))
        else []).
Proof.
  unfold effects, effect_threadId, effect_thread, effect_isFinished,
    effect_recommendedQuestions.
  generalize (changed Deps.threadId last cur) (changed Deps.thread last cur)
    (changed Deps.isFinished last cur)
    (changed Deps.recommendedQuestions last cur).
  intros c1 c2 c3 c4.
  destruct (unfinishedRespose gif (Deps.thread cur)) as [r|];
    destruct cur as [tid th fin rq]; cbn [Deps.threadId Deps.thread
      Deps.isFinished Deps.recommendedQuestions from_option].
  all: destruct c1, c2, c3, c4; run_M; split_conditions; run_M;
    rewrite ?app_nil_r, <- ?app_assoc; reflexivity.
Qed.

(** A render, with the lazy queries its effects executed read off the
    effects that ran. *)
Lemma pass_executed gif s :
  pass gif s =
  (cur ← gets (deps gif);
   last ← gets rendered;
   modify (set_rendered (Some cur));;
   match Deps.threadId cur with
   | Some tid => when (changed Deps.threadId last cur) (request (ThreadQ tid))
   | None => mret ()
   end;;
   effects gif last cur;;
   when (changed Deps.thread last cur
         && from_option (λ _, true) false
              (unfinishedRespose gif (Deps.thread cur)))
     threadResponseResult_startPolling;;
   when (changed Deps.threadId last cur
         && from_option (λ _, true) false (Deps.threadId cur))
     threadRecommendationQuestionsResult_startPolling) s.
Proof.
  unfold pass, mbind, M_bind, gets, modify. cbn beta iota.
  set (cur := deps gif s). set (last := rendered s).
  destruct (match Deps.threadId cur with
            | Some tid =>
                when (changed Deps.threadId last cur) (request (ThreadQ tid))
            | None => mret ()
            end (set_rendered (Some cur) s)) as [[[]|x] s1]; [|reflexivity].
  pose proof (effects_requests gif last cur s1) as Hreq.
  destruct (effects gif last cur s1) as [[[]|x] s2]; [|reflexivity].
  cbn [fst snd] in Hreq. rewrite Hreq, drop_app_length.
  assert (∀ l l', executedThreadResponse (l ++ l')
                  = executedThreadResponse l || executedThreadResponse l')
    as Ht by (intros; apply existsb_app).
  assert (∀ l l', executedThreadRecommendationQuestions (l ++ l')
                  = executedThreadRecommendationQuestions l
                    || executedThreadRecommendationQuestions l')
    as Hr by (intros; apply existsb_app).
  rewrite Ht, Hr.
  destruct (changed Deps.threadId last cur), (changed Deps.thread last cur),
    (Deps.threadId cur), (unfinishedRespose gif (Deps.thread cur));
    reflexivity.
Qed.

(** Unfolds a render into its effects. *)
Ltac run_pass :=
  rewrite ?pass_executed;
  unfold effects, effect_threadId, effect_thread, effect_isFinished,
    effect_recommendedQuestions, changed;
  run_M.

Lemma pass_rendered gif s : rendered (pass gif s).2 = Some (deps gif s).
Proof.
  run_pass. unfold deps.
  generalize (unfinishedRespose gif (thread s)). intros u.
  generalize (threadId s) (thread s) (isFinished gif s)
    (recommendedQuestions s). intros tid th fin rq.
  destruct (rendered s) as [[tid0 th0 fin0 rq0]|]; cbn.
  all: run_M; split_conditions; run_M; reflexivity.
Qed.

(** A render that finds the thread id and the conversation of the render
    before leaves what a render computes as it is. *)
Lemma pass_settles gif s d :
  rendered s = Some d →
  Deps.threadId d = threadId s →
  Deps.thread d = thread s →
  deps gif (pass gif s).2 = deps gif s.
Proof.
  intros Hd Htid Hth. unfold deps.
  rewrite pass_threadId, pass_thread. f_equal.
  - unfold isFinished, threadResponse. f_equal. f_equal.
    run_pass. rewrite Hd, Htid, Hth.
    rewrite !bool_decide_eq_false_2 by (intros Hne; by apply Hne).
    generalize (threadId s) (thread s) (isFinished gif s)
      (recommendedQuestions s). intros tid th fin rq.
    run_M; split_conditions; run_M; reflexivity.
  - unfold recommendedQuestions.
    run_pass. rewrite Hd, Htid, Hth.
    rewrite !bool_decide_eq_false_2 by (intros Hne; by apply Hne).
    generalize (threadId s) (thread s) (isFinished gif s)
      (recommendedQuestions s). intros tid th fin rq.
    run_M; split_conditions; run_M; reflexivity.
Qed.

Lemma pass_pass_rendered gif s :
  let s1 := (pass gif s).2 in
  rendered (pass gif s1).2 = Some (deps gif (pass gif s1).2).
Proof.
  intros s1. rewrite pass_rendered. f_equal. symmetry.
  apply pass_settles with (d := deps gif s).
  - apply pass_rendered.
  - subst s1. by rewrite pass_threadId.
  - subst s1. by rewrite pass_thread.
Qed.

(** ** A render with nothing to do *)

Lemma set_rendered_same s : set_rendered (rendered s) s = s.
Proof. by destruct s. Qed.

Lemma render_settled gif s :
  rendered s = Some (deps gif s) → render gif s = (Normal (), s).
Proof.
  intros H. unfold render. cbn [renders]. unfold mbind, M_bind, gets.
  by rewrite decide_True.
Qed.

Lemma pass_normal gif s : (pass gif s).1 = Normal ().
Proof. by destruct (steady_pass gif s) as ([] & ? & _). Qed.

(** The renders of a page that is not settled: one, and one more when the
    effects of the first changed what a render computes. *)
Lemma render_unsettled gif s :
  rendered s ≠ Some (deps gif s) →
  render gif s
  = (Normal (),
     if decide (rendered (pass gif s).2 = Some (deps gif (pass gif s).2))
     then (pass gif s).2 else (pass gif (pass gif s).2).2).
Proof.
  intros H. unfold render. cbn [renders]. unfold mbind, M_bind, gets.
  rewrite decide_False by done.
  pose proof (pass_normal gif s) as Hn.
  pose proof (pass_pass_rendered gif s) as Hs. cbn zeta in Hs.
  destruct (pass gif s) as [c s1]. cbn [fst snd] in *. subst c.
  destruct (decide (rendered s1 = Some (deps gif s1))); [reflexivity|].
  pose proof (pass_normal gif s1) as Hn1.
  destruct (pass gif s1) as [c s2]. cbn [fst snd] in *. subst c.
  by rewrite decide_True.
Qed.

(** After its renders the page is settled: the last render computed what
    the page now computes. *)
Lemma render_settles gif s :
  rendered (render gif s).2 = Some (deps gif (render gif s).2).
Proof.
  destruct (decide (rendered s = Some (deps gif s))) as [H|H].
  - by rewrite render_settled.
  - rewrite render_unsettled by done. cbn [snd].
    destruct (decide (rendered (pass gif s).2
                      = Some (deps gif (pass gif s).2))); [done|].
    apply pass_pass_rendered.
Qed.

Lemma calmer_refl s : calmer s s.
Proof. unfold calmer. tauto. Qed.

(** A render that finds the thread id and the conversation of the render
    before sends nothing and executes nothing. *)
Lemma pass_calmer gif s d :
  rendered s = Some d →
  Deps.threadId d = threadId s →
  Deps.thread d = thread s →
  calmer s (pass gif s).2.
Proof.
  intros Hd Htid Hth. unfold calmer.
  destruct (keeps_pass gif s) as [Hc Hp].
  split; [exact Hp|]. split; [exact Hc|]. clear Hc Hp.
  run_pass. rewrite Hd, Htid, Hth.
  rewrite !bool_decide_eq_false_2 by (intros Hne; by apply Hne).
  generalize (threadId s) (thread s) (isFinished gif s)
    (recommendedQuestions s). intros tid th fin rq.
  run_M; split_conditions; run_M; repeat split; done.
Qed.

(** The renders after the first one. *)
Lemma render_calmer gif s :
  rendered s ≠ Some (deps gif s) → calmer (pass gif s).2 (render gif s).2.
Proof.
  intros H. rewrite render_unsettled by done. cbn [snd].
  destruct (decide _); [apply calmer_refl|].
  apply pass_calmer with (d := deps gif s).
  - apply pass_rendered.
  - by rewrite pass_threadId.
  - by rewrite pass_thread.
Qed.




(** What every render keeps, the renders keep. *)
Lemma render_keeps gif (P : HomeThread → Prop) s :
  (∀ s', P s' → P (pass gif s').2) → P s → P (render gif s).2.
Proof.
  intros HP Hs.
  destruct (decide (rendered s = Some (deps gif s))) as [H|H].
  - by rewrite render_settled.
  - rewrite render_unsettled by done. cbn [snd].
    destruct (decide _); auto.
Qed.

(** ** The renders and the thread-response poller *)

(** A render that finds the thread id and the conversation of the render
    before, and no response newly finished, leaves the thread-response
    query as it is. *)
Lemma pass_keeps_poller gif s d :
  rendered s = Some d →
  Deps.threadId d = threadId s →
  Deps.thread d = thread s →
  Deps.isFinished d = isFinished gif s ∨ isFinished gif s = false →
  threadResponseResult (pass gif s).2 = threadResponseResult s.
Proof.
  intros Hd Htid Hth Hfin. run_pass. unfold deps. rewrite Hd, Htid, Hth.
  cbn [Deps.threadId Deps.thread Deps.isFinished Deps.recommendedQuestions].
  rewrite !(bool_decide_eq_false_2 (_ ≠ _)) by (intros Hne; by apply Hne).
  destruct Hfin as [-> | ->].
  - rewrite (bool_decide_eq_false_2 (_ ≠ _)) by (intros Hne; by apply Hne).
    generalize (threadId s) (thread s) (recommendedQuestions s).
    intros tid th rq.
    run_M; split_conditions; run_M; reflexivity.
  - generalize (threadId s) (thread s) (recommendedQuestions s).
    intros tid th rq.
    run_M; split_conditions; run_M; reflexivity.
Qed.



(** The render that finds another conversation than the render before,
    with an unfinished entry in it. *)
Lemma pass_on_thread_change gif s u :
  Deps.thread <$> rendered s ≠ Some (thread s) →
  unfinishedRespose gif (thread s) = Some u →
  let q := threadResponseResult s in
  threadResponseResult (pass gif s).2
  = LazyQuery.mk (Some (ThreadResponse.id u)) true
      (if decide (LazyQuery.variables q = Some (ThreadResponse.id u))
       then LazyQuery.data q else None).
Proof.
  intros Hth Hu q. subst q. run_pass. unfold deps. rewrite Hu.
  cbn [Deps.threadId Deps.thread Deps.isFinished Deps.recommendedQuestions
       from_option].
  assert (match rendered s with
          | Some d => bool_decide (Deps.thread d ≠ thread s)
          | None => true
          end = true) as ->.
  { destruct (rendered s) as [d|]; [|reflexivity].
    apply bool_decide_eq_true_2. intros E. apply Hth. cbn. by rewrite E. }
  destruct (threadResponseResult s) as [v p dt] eqn:E.
  generalize (threadId s) (thread s) (isFinished gif s)
    (recommendedQuestions s). intros tid th fin rq.
  destruct (rendered s) as [[tid0 th0 fin0 rq0]|]; cbn.
  all: run_M; split_conditions; run_M; rewrite ?E; reflexivity.
Qed.

(** The renders that follow a change of the conversation end with the poller
    polling its first unfinished entry, where no status is not a finished
    one. *)
Lemma render_on_thread_change gif s u :
  gif None = false →
  Deps.thread <$> rendered s ≠ Some (thread s) →
  unfinishedRespose gif (thread s) = Some u →
  let q := threadResponseResult s in
  threadResponseResult (render gif s).2
  = LazyQuery.mk (Some (ThreadResponse.id u)) true
      (if decide (LazyQuery.variables q = Some (ThreadResponse.id u))
       then LazyQuery.data q else None).
Proof.
  intros Hnone Hth Hu q. subst q.
  assert (rendered s ≠ Some (deps gif s)) as Hun.
  { intros E. apply Hth. by rewrite E. }
  rewrite render_unsettled by done. cbn [snd].
  pose proof (pass_on_thread_change gif s u Hth Hu) as H1. cbn zeta in H1.
  destruct (decide (rendered (pass gif s).2
                    = Some (deps gif (pass gif s).2))); [exact H1|].
  rewrite <- H1.
  apply pass_keeps_poller with (d := deps gif s).
  - apply pass_rendered.
  - by rewrite pass_threadId.
  - by rewrite pass_thread.
  - assert (isFinished gif (pass gif s).2
            = gif (ThreadResponse.status <$>
                   if decide (LazyQuery.variables (threadResponseResult s)
                              = Some (ThreadResponse.id u))
                   then LazyQuery.data (threadResponseResult s) else None))
      as -> by (unfold isFinished, threadResponse; by rewrite H1).
    destruct (decide (LazyQuery.variables (threadResponseResult s)
                      = Some (ThreadResponse.id u)));
      [left; reflexivity | right; exact Hnone].
Qed.

(** ** The convergence of the responses *)

Lemma tick_asks_again gif s id :
  LazyQuery.polling (threadResponseResult s) = true →
  LazyQuery.variables (threadResponseResult s) = Some id →
  requests (handler gif ThreadResponseTick s).2
  = requests s ++ [ThreadResponseQ id].
Proof.
  intros Hp Hv. cbn [handler]. run_M.
  destruct (threadResponseResult s) as [v p dt]. cbn in Hp, Hv. by subst.
Qed.


(** C4. When the entries of the conversation before [response] are all
    finished and [response] is not, [response] is the entry the effect on
    [thread] finds, and the thread-response query is executed for its id
    and for nothing else: the poller polls with that id as its only
    variables, and a tick of its timer asks for that id and for no other.
    After the renders that follow any change of the conversation (the first
    render, a new thread, an appended or a merged response) the poller
    polls [response]; this includes the renders in which the polled entry
    arrives finished while a later one is not: the effect on [isFinished]
    stops the timer of the entry that finished, and the poller goes on with
    the next.  For a conversation whose entries are all finished, or for no
    conversation, the effect asks for nothing and leaves the poller as it
    was.  [getIsFinished] is any function for which no status at all is not
    a finished one. *)
Theorem convergence_polls_first_unfinished gif s t before response after :
  thread s = Some t →
  Thread.responses t = before ++ response :: after →
  Forall (λ r, gif (Some (ThreadResponse.status r)) = true) before →
  gif (Some (ThreadResponse.status response)) = false →
  unfinishedRespose gif (thread s) = Some response ∧
  (let s' := (effect_thread gif (thread s) s).2 in
   LazyQuery.polling (threadResponseResult s') = true ∧
   LazyQuery.variables (threadResponseResult s')
     = Some (ThreadResponse.id response) ∧
   requests (handler gif ThreadResponseTick s').2
     = requests s' ++ [ThreadResponseQ (ThreadResponse.id response)]) ∧
  (gif None = false →
   Deps.thread <$> rendered s ≠ Some (thread s) →
   let s' := (render gif s).2 in
   thread s' = thread s ∧
   LazyQuery.polling (threadResponseResult s') = true ∧
   LazyQuery.variables (threadResponseResult s')
     = Some (ThreadResponse.id response) ∧
   requests (handler gif ThreadResponseTick s').2
     = requests s' ++ [ThreadResponseQ (ThreadResponse.id response)]) ∧
  (∀ thread' s0,
     Forall (λ r, gif (Some (ThreadResponse.status r)) = true)
       (from_option Thread.responses [] thread') →
     let s' := (effect_thread gif thread' s0).2 in
     requests s' = requests s0 ∧
     threadResponseResult s' = threadResponseResult s0).
Proof.
  intros Ht Hresp Hb Hr.
  assert (unfinishedRespose gif (thread s) = Some response) as Hu.
  { rewrite Ht. destruct t as [id sql responses]. cbn in Hresp.
    by apply unfinishedRespose_first with (before := before) (after := after). }
  split; [exact Hu|]. split; [|split].
  - pose proof (effect_thread_fetches gif (thread s) s) as H.
    rewrite Hu in H. cbn zeta in H. by destruct H as (_ & ? & ? & ?).
  - intros Hnone Hth s'. subst s'.
    pose proof (render_on_thread_change gif s response Hnone Hth Hu) as H.
    cbn zeta in H.
    split; [apply render_thread|].
    assert (LazyQuery.polling (threadResponseResult (render gif s).2) = true)
      as Hp by (by rewrite H).
    assert (LazyQuery.variables (threadResponseResult (render gif s).2)
            = Some (ThreadResponse.id response))
      as Hv by (by rewrite H).
    split; [exact Hp|]. split; [exact Hv|]. by apply tick_asks_again.
  - intros thread' s0 Hall.
    pose proof (effect_thread_fetches gif thread' s0) as H.
    by rewrite (unfinishedRespose_none _ _ Hall) in H.
Qed.

Lemma convergence_polls_first_unfinished_witness :
  let gif := useAskPrompt.getIsFinished in
  let a := ThreadResponse.mk 1 (Some "a") Status.generating None None in
  let a' := ThreadResponse.mk 1 (Some "a") Status.finished None None in
  let b := ThreadResponse.mk 2 (Some "b") Status.pending None None in
  let s0 := run gif (initial (Some {[ "id" := JS.PString "5" ]}))
              [Mount; ThreadResult (JS.ofZ 5) (Thread.mk 5 None [a; b]);
               ThreadResponseResult a] in
  let s := (handler gif (ThreadResponseResult a') s0).2 in
  let s' := (render gif s).2 in
  LazyQuery.variables (threadResponseResult s0) = Some 1 ∧
  thread s = Some (Thread.mk 5 None [a'; b]) ∧
  LazyQuery.polling (threadResponseResult s') = true ∧
  LazyQuery.variables (threadResponseResult s') = Some 2.
Proof.
  intros gif a a' b s0 s s'.
  split; [by vm_compute|]. split; [by vm_compute|].
  destruct (convergence_polls_first_unfinished gif s
              (Thread.mk 5 None [a'; b]) [a'] b [])
    as (_ & _ & Hrender & _).
  - by vm_compute.
  - reflexivity.
  - by repeat constructor.
  - reflexivity.
  - destruct Hrender as (_ & Hp & Hv & _).
    + reflexivity.
    + by vm_compute.
    + split; [exact Hp | exact Hv].
Defined.

(** ** A change of thread and the pollers *)

Lemma unsettled_threadId gif s d :
  rendered s = Some d → Deps.threadId d ≠ threadId s →
  rendered s ≠ Some (deps gif s).
Proof. intros Hd Hne H. rewrite Hd in H. injection H as ->. by apply Hne. Qed.

Lemma pass_on_threadId_change gif s d :
  rendered s = Some d →
  Deps.threadId d ≠ threadId s →
  let s' := (pass gif s).2 in
  AskPrompt.polling (askPrompt s') = false ∧
  (LazyQuery.polling (threadResponseResult s') = true →
   ∃ response, unfinishedRespose gif (thread s) = Some response ∧
     LazyQuery.variables (threadResponseResult s')
       = Some (ThreadResponse.id response)) ∧
  ∃ sent,
    requests s' = requests s ++ sent ∧
    Forall (λ r, ∀ id, r ≠ GenerateThreadRecommendationQuestionsM id) sent ∧
    match threadId s with
    | Some tid =>
        GetThreadRecommendationQuestionsQ tid ∈ sent ∧
        LazyQuery.variables (threadRecommendationQuestionsResult s') = Some tid
    | None =>
        LazyQuery.polling (threadRecommendationQuestionsResult s') = false
    end.
Proof.
  intros Hd Hchg s'. subst s'. run_pass.
  rewrite Hd.
  rewrite (bool_decide_eq_true_2 (Deps.threadId d ≠ threadId s)) by done.
  destruct (unfinishedRespose gif (thread s)) as [u|].
  all: generalize (threadId s) (thread s) (isFinished gif s)
         (recommendedQuestions s); intros tid th fin rq.
  all: run_M; split_conditions; run_M.
  all: split; [reflexivity|].
  all: split; [intros; try discriminate; eauto|].
  all: eexists.
  all: (split; [rewrite <- ?app_assoc; cbn [app]; try reflexivity;
                symmetry; apply app_nil_r|]).
  all: split; [repeat constructor; discriminate|].
  all: try reflexivity.
  all: split; [set_solver | reflexivity].
Qed.

(** The renders that see a new thread id. *)
Lemma render_on_threadId_change gif s d :
  rendered s = Some d →
  Deps.threadId d ≠ threadId s →
  let s' := (render gif s).2 in
  AskPrompt.polling (askPrompt s') = false ∧
  (LazyQuery.polling (threadResponseResult s') = true →
   ∃ response, unfinishedRespose gif (thread s) = Some response ∧
     LazyQuery.variables (threadResponseResult s')
       = Some (ThreadResponse.id response)) ∧
  ∃ sent,
    requests s' = requests s ++ sent ∧
    Forall (λ r, ∀ id, r ≠ GenerateThreadRecommendationQuestionsM id) sent ∧
    match threadId s with
    | Some tid =>
        GetThreadRecommendationQuestionsQ tid ∈ sent ∧
        LazyQuery.variables (threadRecommendationQuestionsResult s') = Some tid
    | None =>
        LazyQuery.polling (threadRecommendationQuestionsResult s') = false
    end.
Proof.
  intros Hd Hchg s'. subst s'.
  destruct (pass_on_threadId_change gif s d Hd Hchg)
    as (Ha & Hq & sent & Hsent & Hgen & Hrec).
  destruct (render_calmer gif s (unsettled_threadId gif s d Hd Hchg))
    as (_ & _ & Hreq & Hask & _ & _ & _ & Hv & _ & Hp & Hrv & _ & Hrp & _).
  split; [by rewrite Hask|]. split.
  - intros Hpoll. destruct (Hq (Hp Hpoll)) as (r & Hu & Hvar).
    exists r. by rewrite Hv.
  - exists sent. split; [by rewrite Hreq|]. split; [exact Hgen|].
    destruct (threadId s).
    + by rewrite Hrv.
    + apply not_true_is_false. intros E. apply Hrp in E. congruence.
Qed.

(** C5. The effect on [threadId] first stops the asking-task poller, the
    thread-response poller and the recommendation poller, sending nothing;
    then, for a thread id that is not null, it fetches the recommendations
    of that thread, the one operation it sends, and for a null id it does
    nothing more.  So in the render that sees a new thread id the
    asking-task poller ends stopped, no [generate] mutation is sent, the
    thread-response poller polls only if restarted for the first unfinished
    entry of the new conversation, and the recommendation poller is left
    with the new id as its variables after its query was sent, or stopped
    when the new id is null. *)
Theorem thread_change_stops_pollers_then_fetches gif s p d :
  let s1 := step gif s (Route p) in
  rendered s = Some d →
  Deps.threadId d ≠ threadId s1 →
  (∀ tid s', ∃ s0,
     AskPrompt.polling (askPrompt s0) = false ∧
     LazyQuery.polling (threadResponseResult s0) = false ∧
     LazyQuery.polling (threadRecommendationQuestionsResult s0) = false ∧
     requests s0 = requests s' ∧
     match tid with
     | Some threadId =>
         effect_threadId tid s'
         = (fetchThreadRecommendationQuestions threadId;;
            setShowRecommendedQuestions true) s0 ∧
         requests (effect_threadId tid s').2
         = requests s' ++ [GetThreadRecommendationQuestionsQ threadId]
     | None => effect_threadId tid s' = (Normal (), s0)
     end) ∧
  AskPrompt.polling (askPrompt s1) = false ∧
  (LazyQuery.polling (threadResponseResult s1) = true →
   ∃ response, unfinishedRespose gif (thread s1) = Some response ∧
     LazyQuery.variables (threadResponseResult s1)
       = Some (ThreadResponse.id response)) ∧
  ∃ sent,
    requests s1 = requests s ++ sent ∧
    Forall (λ r, ∀ id, r ≠ GenerateThreadRecommendationQuestionsM id) sent ∧
    match threadId s1 with
    | Some tid =>
        GetThreadRecommendationQuestionsQ tid ∈ sent ∧
        LazyQuery.variables (threadRecommendationQuestionsResult s1) = Some tid
    | None =>
        LazyQuery.polling (threadRecommendationQuestionsResult s1) = false
    end.
Proof.
  intros s1 Hd Hchg. split.
  - intros tid s'.
    destruct (effect_threadId_sequence tid s')
      as (s0 & H1 & H2 & H3 & H4 & _ & _ & H5).
    exists s0. repeat (split; [assumption|]).
    destruct tid; [|by destruct H5 as [-> _]].
    destruct H5 as (-> & H5 & _). by split.
  - subst s1. unfold step in *. cbn [handler] in *.
    change (modify (set_params p) s) with (Normal (), set_params p s) in *.
    cbn iota beta in *. rewrite render_threadId in *. rewrite render_thread.
    exact (render_on_threadId_change gif (set_params p s) d Hd Hchg).
Qed.

Lemma thread_change_stops_pollers_then_fetches_witness :
  let gif := useAskPrompt.getIsFinished in
  let a := ThreadResponse.mk 7 (Some "a") Status.pending None None in
  let s := run gif (initial (Some {[ "id" := JS.PString "1" ]}))
             [Mount; ThreadResult (JS.ofZ 1) (Thread.mk 1 None [a])] in
  let s1 := step gif s (Route (Some {[ "id" := JS.PString "2" ]})) in
  LazyQuery.polling (threadResponseResult s) = true ∧
  AskPrompt.polling (askPrompt s1) = false ∧
  LazyQuery.polling (threadResponseResult s1) = false ∧
  requests s1
  = requests s ++ [ThreadQ (JS.ofZ 2);
                   GetThreadRecommendationQuestionsQ (JS.ofZ 2)].
Proof.
  intros gif a s s1.
  destruct (thread_change_stops_pollers_then_fetches gif s
              (Some {[ "id" := JS.PString "2" ]})
              (Deps.mk (Some (JS.ofZ 1)) (Some (Thread.mk 1 None [a]))
                 false None))
    as (_ & H & _ & _); [by vm_compute | by vm_compute |].
  split; [by vm_compute|]. split; [exact H|].
  split; vm_compute; reflexivity.
Defined.

(** ** A change of thread and the answers that arrive after it *)






(** ** The recommendations of a thread *)







(** ** Two functions that agree on every status run the same page *)

Lemma bind_ext {A B} (m m' : M A) (f f' : A → M B) :
  (∀ s, m s = m' s) → (∀ a s, f a s = f' a s) →
  ∀ s, (m ≫= f) s = (m' ≫= f') s.
Proof.
  intros Hm Hf s. unfold mbind, M_bind. rewrite Hm.
  destruct (m' s) as [[a|e] s1]; [apply Hf | reflexivity].
Qed.

Lemma when_ext b (m m' : M ()) :
  (∀ s, m s = m' s) → ∀ s, when b m s = when b m' s.
Proof. intros H s. destruct b; [apply H | reflexivity]. Qed.

Lemma tryCatch_ext (m m' : M ()) h :
  (∀ s, m s = m' s) → ∀ s, tryCatch m h s = tryCatch m' h s.
Proof. intros H s. unfold tryCatch. by rewrite H. Qed.

Section Extensionality.

Context (g g' : option Status.t → bool) (Hg : ∀ x, g x = g' x).

Lemma unfinishedRespose_ext thread :
  unfinishedRespose g thread = unfinishedRespose g' thread.
Proof.
  unfold unfinishedRespose.
  induction (from_option Thread.responses [] thread) as [|r l IH];
    [reflexivity|].
  cbn. by rewrite Hg, IH.
Qed.

Lemma deps_ext s : deps g s = deps g' s.
Proof. unfold deps, isFinished. by rewrite Hg. Qed.

Lemma effect_thread_ext thread s :
  effect_thread g thread s = effect_thread g' thread s.
Proof. unfold effect_thread. by rewrite unfinishedRespose_ext. Qed.

Lemma effects_ext last cur s : effects g last cur s = effects g' last cur s.
Proof.
  unfold effects. revert s.
  repeat (apply bind_ext; [try reflexivity|intros ?]).
  - apply when_ext, effect_thread_ext.
  - reflexivity.
Qed.

Lemma pass_ext s : pass g s = pass g' s.
Proof.
  unfold pass. revert s.
  apply bind_ext; [intros s; unfold gets; by rewrite deps_ext|]. intros cur.
  repeat (apply bind_ext;
          [first [reflexivity | apply effects_ext] | intros ?]).
  reflexivity.
Qed.

Lemma renders_ext n s : renders g n s = renders g' n s.
Proof.
  revert s. induction n as [|n IH]; intros s; [reflexivity|].
  cbn [renders]. revert s.
  apply bind_ext; [intros s; unfold gets; by rewrite deps_ext|]. intros cur.
  apply bind_ext; [reflexivity|]. intros last.
  destruct (decide (last = Some cur)); [reflexivity|].
  apply bind_ext; [apply pass_ext | intros _; apply IH].
Qed.

Lemma render_ext s : render g s = render g' s.
Proof. apply renders_ext. Qed.

Lemma onSelect_ext thread payload created generated fetched s :
  onSelect g thread payload created generated fetched s
  = onSelect g' thread payload created generated fetched s.
Proof.
  unfold onSelect. revert s. apply tryCatch_ext.
  unfold createThreadResponse, generateThreadRecommendationQuestions,
    awaitThreadResponse.
  repeat first [ apply render_ext | by intros | apply bind_ext; [|intros ?] ].
Qed.

Lemma handler_ext e s : handler g e s = handler g' e s.
Proof.
  destruct e; try reflexivity. cbn. revert s.
  apply bind_ext; [reflexivity|]. intros last. apply onSelect_ext.
Qed.

Lemma step_ext s e : step g s e = step g' s e.
Proof.
  unfold step. rewrite handler_ext.
  destruct (handler g' e s) as [[a|x] s1]; by rewrite render_ext.
Qed.

Lemma run_ext s es : run g s es = run g' s es.
Proof.
  unfold run. revert s. induction es as [|e es IH]; intros s; [reflexivity|].
  cbn. by rewrite step_ext, IH.
Qed.

End Extensionality.

Lemma statusTable_eq (g : option Status.t → bool) x :
  g x = statusTable (g None) (g (Some Status.pending))
          (g (Some Status.generating)) (g (Some Status.finished))
          (g (Some Status.failed)) (g (Some Status.stopped)) x.
Proof. by destruct x as [[]|]. Qed.

(** ** A render with nothing to do *)


Lemma updateThreadQuery_only_cache mapFn s :
  ∃ c, (updateThreadQuery mapFn s).2 = set_cache c s.
Proof.
  unfold updateThreadQuery. run_M.
  destruct (mapFn (cached s)) as [[[t|]]|e]; cbn;
    destruct (threadId s); cbn; eauto using eq_sym, set_cache_same.
Qed.

(** ** A creation that fails *)

Lemma creation_fails_step gif s t payload e generated fetched :
  rendered s = Some (deps gif s) →
  thread s = Some t →
  step gif s (Select payload (Throw e) generated fetched)
  = set_console (console s ++ [e])
      (set_requests
         (requests s ++ [CreateThreadResponseM (Thread.id t) payload])
         (set_askPrompt (AskPrompt.onStopPolling (askPrompt s)) s)).
Proof.
  intros Hs Ht. unfold step. cbn [handler].
  unfold onSelect, createThreadResponse, tryCatch. run_M.
  rewrite Hs. cbn. rewrite Ht. cbn.
  rewrite (render_settled gif (set_requests _ (set_askPrompt _ s)) Hs).
  cbn.
  apply (f_equal snd
    (render_settled gif
       (set_console _ (set_requests _ (set_askPrompt _ s))) Hs)).
Qed.

(** C8. On a page that has rendered its current state and shows a thread,
    when the mutation [createThreadResponse] is rejected, [onSelect] catches
    the error and logs it: the mutation is the only operation sent (no
    thread-response query, no recommendation mutation or query), no entry
    is appended and every cached conversation is as it was, the
    thread-response poller and the recommendation poller are left as they
    were, and no exception leaves the handler. *)
Theorem failed_creation_never_polls gif s t payload e generated fetched :
  rendered s = Some (deps gif s) →
  thread s = Some t →
  let s' := step gif s (Select payload (Throw e) generated fetched) in
  requests s' = requests s ++ [CreateThreadResponseM (Thread.id t) payload] ∧
  thread s' = Some t ∧
  cache s' = cache s ∧
  threadResponseResult s' = threadResponseResult s ∧
  threadRecommendationQuestionsResult s'
    = threadRecommendationQuestionsResult s ∧
  console s' = console s ++ [e] ∧
  uncaught s' = uncaught s.
Proof.
  intros Hs Ht s'. subst s'.
  rewrite (creation_fails_step _ _ _ _ _ _ _ Hs Ht).
  repeat split; try reflexivity.
  rewrite <- Ht. by apply thread_ext.
Qed.

Lemma failed_creation_never_polls_witness :
  let gif := useAskPrompt.getIsFinished in
  let a := ThreadResponse.mk 3 (Some "a") Status.generating None None in
  let payload := CreateThreadResponseInput.mk (Some "q") None None in
  let s := run gif (initial (Some {[ "id" := JS.PString "1" ]}))
             [Mount; ThreadResult (JS.ofZ 1) (Thread.mk 1 None [a]);
              ThreadResponseResult a] in
  let s' := step gif s (Select payload (Throw ApolloError) (Normal ()) None) in
  LazyQuery.polling (threadResponseResult s) = true ∧
  requests s' = requests s ++ [CreateThreadResponseM 1 payload] ∧
  thread s' = Some (Thread.mk 1 None [a]) ∧
  threadResponseResult s' = threadResponseResult s.
Proof.
  intros gif a payload s s'.
  destruct (failed_creation_never_polls gif s (Thread.mk 1 None [a]) payload
              ApolloError (Normal ()) None) as (H1 & H2 & _ & H4 & _).
  - by vm_compute.
  - by vm_compute.
  - split; [by vm_compute|]. split; [exact H1|]. split; [exact H2 | exact H4].
Defined.

(** ** The length of the response list *)

Lemma responsesLength_ext s s' :
  cache s = cache s' → params s = params s' →
  responsesLength s = responsesLength s'.
Proof. intros Hc Hp. unfold responsesLength. by rewrite (thread_ext s s'). Qed.

Lemma responsesLength_Some s n :
  responsesLength s = Some n ↔
  ∃ t, thread s = Some t ∧ length (Thread.responses t) = n.
Proof.
  unfold responsesLength. destruct (thread s) as [t|]; cbn.
  - split; [intros [= <-]; eauto | intros (? & [= <-] & <-); done].
  - split; [done | by intros (? & ? & _)].
Qed.

Lemma append_onCompleted_length next s n :
  responsesLength s = Some n →
  ∃ s', createThreadResponse_onCompleted next s = (Normal (), s') ∧
        responsesLength s' = Some (n + 1)%nat.
Proof.
  intros (t & Ht & <-)%responsesLength_Some.
  apply thread_Some in Ht as (tid & Htid & Hc).
  rewrite (append_onCompleted_present _ _ _ _ Htid Hc).
  eexists. split; [reflexivity|]. apply responsesLength_Some.
  eexists. split; [by apply thread_set_cache|]. cbn.
  by rewrite length_app.
Qed.

Lemma merge_onCompleted_length next s n :
  responsesLength s = Some n →
  ∃ s', threadResponse_onCompleted next s = (Normal (), s') ∧
        responsesLength s' = Some n.
Proof.
  intros (t & Ht & <-)%responsesLength_Some.
  apply thread_Some in Ht as (tid & Htid & Hc).
  rewrite (merge_onCompleted_present _ _ _ _ Htid Hc).
  eexists. split; [reflexivity|]. apply responsesLength_Some.
  eexists. split; [by apply thread_set_cache|]. cbn.
  apply mergeResponses_length.
Qed.

Lemma steady_length {A} (m : M A) s n :
  steady m → responsesLength s = Some n →
  ∃ a s', m s = (Normal a, s') ∧ responsesLength s' = Some n.
Proof.
  intros Hm Hn. destruct (Hm s) as (a & Ha & Hc & Hp).
  destruct (m s) as [c s']; cbn in *; subst c.
  exists a, s'. split; [reflexivity|]. rewrite <- Hn.
  by apply responsesLength_ext.
Qed.

(** Runs a steady computation at the head of the goal. *)
Ltac run_steady H Hn :=
  let a := fresh "a" in let s' := fresh "s" in
  let E := fresh "E" in let Hn' := fresh "Hn" in
  destruct (steady_length _ _ _ H Hn) as (a & s' & E & Hn');
  rewrite E; clear E; cbn beta iota.

Lemma steady_askPrompt_onStopPolling : steady askPrompt_onStopPolling.
Proof. unfold askPrompt_onStopPolling. steady. Qed.

Lemma steady_setShowRecommendedQuestions b :
  steady (setShowRecommendedQuestions b).
Proof. unfold setShowRecommendedQuestions. steady. Qed.

Lemma steady_console_error e : steady (console_error e).
Proof. unfold console_error. steady. Qed.

Lemma createThreadResponse_length gif id payload created s n :
  responsesLength s = Some n →
  ∃ s', match created with
        | Normal next =>
            createThreadResponse gif id payload created s = (Normal next, s') ∧
            responsesLength s' = Some (n + 1)%nat
        | Throw e =>
            createThreadResponse gif id payload created s = (Throw e, s') ∧
            responsesLength s' = Some n
        end.
Proof.
  intros Hn. unfold createThreadResponse, mbind, M_bind.
  run_steady (steady_request (CreateThreadResponseM id payload)) Hn.
  run_steady (steady_render gif) Hn0.
  destruct created as [next|e]; cbn; [|eauto].
  destruct (append_onCompleted_length next _ _ Hn1) as (s' & -> & Hs').
  cbn. eauto.
Qed.

Lemma generateThreadRecommendationQuestions_length gif id generated s n :
  responsesLength s = Some n →
  ∃ s', generateThreadRecommendationQuestions gif id generated s
        = (generated, s') ∧
        responsesLength s' = Some n.
Proof.
  intros Hn. unfold generateThreadRecommendationQuestions, mbind, M_bind.
  run_steady (steady_request (GenerateThreadRecommendationQuestionsM id)) Hn.
  run_steady (steady_render gif) Hn0.
  cbn. eauto.
Qed.

Lemma deliverThreadResponse_length next s n :
  responsesLength s = Some n →
  ∃ s', deliverThreadResponse next s = (Normal (), s') ∧
        responsesLength s' = Some n.
Proof.
  intros (t & Ht & <-)%responsesLength_Some.
  rewrite deliverThreadResponse_spec, Ht.
  eexists. split; [reflexivity|]. apply responsesLength_Some.
  eexists. split.
  - transitivity (thread (set_cache (writeThreadResponse next (cache s)) s));
      [by apply thread_ext|].
    rewrite thread_writeThreadResponse, Ht. reflexivity.
  - cbn. apply mergeResponses_length.
Qed.

Lemma awaitThreadResponse_length gif id fetched s n :
  responsesLength s = Some n →
  ∃ s', awaitThreadResponse gif id fetched s = (Normal (), s') ∧
        responsesLength s' = Some n.
Proof.
  intros Hn. unfold awaitThreadResponse, mbind, M_bind.
  run_steady (steady_fetchThreadResponse id) Hn.
  run_steady (steady_render gif) Hn0.
  destruct fetched as [next|]; [|by destruct a0; eauto].
  by apply deliverThreadResponse_length.
Qed.

Lemma onSelect_length gif t payload created generated fetched s n :
  responsesLength s = Some n →
  responsesLength
    (onSelect gif (Some t) payload created generated fetched s).2
  = Some (n + creation (Select payload created generated fetched))%nat.
Proof.
  intros Hn. unfold onSelect, tryCatch, mbind, M_bind.
  run_steady steady_askPrompt_onStopPolling Hn.
  unfold thread_id, mret, M_ret.
  destruct (createThreadResponse_length gif (Thread.id t) payload created
              _ _ Hn0) as (s1 & H1).
  destruct created as [next|e]; destruct H1 as [-> H1]; cbn.
  2:{ rewrite Nat.add_0_r, <- H1. by apply responsesLength_ext. }
  destruct (generateThreadRecommendationQuestions_length gif (Thread.id t)
              generated _ _ H1) as (s2 & -> & H2).
  destruct generated as [[]|e]; cbn.
  2:{ rewrite <- H2. by apply responsesLength_ext. }
  assert (responsesLength (set_showRecommendedQuestions false s2)
          = Some (n + 1)%nat) as H2' by exact H2.
  destruct (awaitThreadResponse_length gif (ThreadResponse.id next) fetched
              _ _ H2') as (s3 & -> & H3).
  cbn.
  run_steady (steady_fetchThreadRecommendationQuestions
                (JS.ofZ (Thread.id t))) H3.
  exact Hn1.
Qed.

Lemma handler_length gif s e n d :
  rendered s = Some d →
  is_Some (Deps.thread d) →
  responsesLength s = Some n →
  conversation_event e = true →
  responsesLength (handler gif e s).2 = Some (n + creation e)%nat.
Proof.
  intros Hd [t Ht] Hn He.
  destruct e as [| | |next|next| | |payload created generated fetched];
    try discriminate He; cbn [handler creation];
    rewrite ?Nat.add_0_r; try exact Hn.
  - destruct (deliverThreadResponse_length next s n Hn) as (s' & -> & Hs').
    exact Hs'.
  - unfold mbind, M_bind, gets.
    destruct (threadResponseResult s) as [[v|] [] dt]; exact Hn.
  - unfold mbind, M_bind, gets.
    destruct (threadRecommendationQuestionsResult s) as [[v|] [] dt];
      exact Hn.
  - unfold mbind, M_bind, gets. rewrite Hd. cbn [mbind option_bind].
    rewrite Ht. by apply onSelect_length.
Qed.

Lemma step_length gif s e n d :
  rendered s = Some d →
  is_Some (Deps.thread d) →
  responsesLength s = Some n →
  conversation_event e = true →
  let s' := step gif s e in
  responsesLength s' = Some (n + creation e)%nat ∧
  ∃ d', rendered s' = Some d' ∧ is_Some (Deps.thread d').
Proof.
  intros Hd Ht Hn He s'.
  pose proof (handler_length gif s e n d Hd Ht Hn He) as Hh.
  subst s'. unfold step.
  set (s1 := match handler gif e s with
             | (Normal _, s') => s'
             | (Throw x, s') => set_uncaught (uncaught s' ++ [x]) s'
             end).
  assert (responsesLength s1 = Some (n + creation e)%nat) as H1.
  { subst s1. by destruct (handler gif e s) as [[a|x] s']. }
  destruct (keeps_render gif s1) as [Hc Hp].
  split.
  - rewrite <- H1. by apply responsesLength_ext.
  - exists (deps gif (render gif s1).2). split; [apply render_settles|].
    cbn. rewrite render_thread.
    apply responsesLength_Some in H1 as (t & -> & _). eauto.
Qed.

(** C3. On a page that has rendered a conversation of [n] responses, after
    any sequence of events that keeps the page on that conversation and on
    the copy of it that it has (results of the polls, ticks of the timers,
    choices of the user, whatever the awaited calls answer), the
    conversation has [n] responses plus one for each call of
    [createThreadResponse] that succeeded: the responses of a conversation
    that started empty are as many as the successful creations.  A creation
    puts its response after all the others, and a merge keeps the length. *)
Theorem responses_length_counts_creations gif es s n d :
  rendered s = Some d →
  is_Some (Deps.thread d) →
  responsesLength s = Some n →
  forallb conversation_event es = true →
  responsesLength (run gif s es) = Some (n + creations es)%nat ∧
  (∀ next t,
     appendResponse next (ThreadQuery.mk (Some t))
     = Normal (ThreadQuery.mk (Some
         (Thread.mk (Thread.id t) (Thread.sql t)
            (Thread.responses t ++ [next]))))) ∧
  (∀ next responses,
     length (mergeResponses next responses) = length responses).
Proof.
  intros Hd Ht Hn Hes. split; [|split].
  - revert s n d Hd Ht Hn. unfold run, creations.
    induction es as [|e es IH]; intros s n d Hd Ht Hn; cbn.
    + by rewrite Nat.add_0_r.
    + cbn in Hes. apply andb_prop in Hes as [He Hes].
      destruct (step_length gif s e n d Hd Ht Hn He) as (Hn' & d' & Hd' & Ht').
      rewrite (IH Hes _ _ _ Hd' Ht' Hn'). f_equal. lia.
  - reflexivity.
  - intros. apply mergeResponses_length.
Qed.

Lemma responses_length_counts_creations_witness :
  let gif := useAskPrompt.getIsFinished in
  let payload := CreateThreadResponseInput.mk (Some "q") None None in
  let r1 := ThreadResponse.mk 7 (Some "q") Status.pending None None in
  let r1' := ThreadResponse.mk 7 (Some "q") Status.finished None None in
  let r2 := ThreadResponse.mk 8 (Some "q") Status.pending None None in
  let s := run gif (initial (Some {[ "id" := JS.PString "1" ]}))
             [Mount; ThreadResult (JS.ofZ 1) (Thread.mk 1 None [])] in
  let es := [Select payload (Normal r1) (Normal ()) (Some r1);
             ThreadResponseTick;
             ThreadResponseResult r1';
             Select payload (Throw ApolloError) (Normal ()) None;
             Select payload (Normal r2) (Throw ApolloError) None;
             ThreadResponseResult r1'] in
  responsesLength s = Some 0%nat ∧
  responsesLength (run gif s es) = Some 2%nat.
Proof.
  intros gif payload r1 r1' r2 s es.
  split; [by vm_compute|].
  refine (proj1 (responses_length_counts_creations gif es s 0%nat
    (Deps.mk (Some (JS.ofZ 1)) (Some (Thread.mk 1 None [])) false None)
    _ _ _ _)).
  - by vm_compute.
  - by eexists.
  - by vm_compute.
  - reflexivity.
Defined.

(** ** The thread id of the route *)

Lemma render_null_sends_nothing gif s :
  threadId s = None → requests (render gif s).2 = requests s.
Proof.
  intros Hnull.
  apply (render_keeps gif
           (λ s', threadId s' = None ∧ requests s' = requests s));
    [|done].
  clear Hnull. intros s' [Hnull <-]. split; [by rewrite pass_threadId|].
  run_pass. unfold deps, thread, data.
  rewrite Hnull. cbn.
  generalize (isFinished gif s') (recommendedQuestions s'). intros fin rq.
  destruct (rendered s') as [[tid0 th0 fin0 rq0]|]; cbn.
  all: run_M; split_conditions; run_M; reflexivity.
Qed.

(** C10. [threadId] is [Number(params?.id) || null]: when the route has no
    [id], or [Number] makes [NaN] of it (it is not numeric), or makes zero
    of it, the thread id is [null]; then the [Thread] query is skipped: it
    has no data, the page has no thread, and a render sends no operation at
    all. *)
Theorem null_thread_id_skips_thread_query gif s :
  let id := params s ≫= (.!! "id") in
  id = None ∨ JS.Number id = JS.NaN ∨ JS.Number id = JS.Finite 0 0 →
  threadId s = JS.orNull (JS.Number id) ∧
  threadId s = None ∧
  skip (threadId s) = true ∧
  data s = None ∧
  thread s = None ∧
  requests (render gif s).2 = requests s.
Proof.
  intros id Hid.
  assert (threadId s = None) as Hnull.
  { change (threadId s) with (JS.orNull (JS.Number id)).
    destruct Hid as [H | [H | H]]; by rewrite H. }
  split; [reflexivity|]. split; [exact Hnull|].
  split; [by rewrite Hnull|].
  split; [unfold data; by rewrite Hnull|].
  split; [unfold thread, data; by rewrite Hnull|].
  by apply render_null_sends_nothing.
Qed.

Lemma null_thread_id_skips_thread_query_witness :
  let gif := useAskPrompt.getIsFinished in
  let route (id : string) :=
    initial (Some {[ "id" := JS.PString id ]}) in
  (thread (route "abc") = None ∧ requests (step gif (route "abc") Mount) = []) ∧
  (thread (route "0") = None ∧ requests (step gif (route "0") Mount) = []) ∧
  (thread (initial None) = None ∧ requests (step gif (initial None) Mount) = []) ∧
  threadId (route "12") = Some (JS.ofZ 12) ∧
  requests (step gif (route "12") Mount)
  = [ThreadQ (JS.ofZ 12); GetThreadRecommendationQuestionsQ (JS.ofZ 12)].
Proof.
  intros gif route.
  pose proof (null_thread_id_skips_thread_query gif (route "abc")
                (or_intror (or_introl eq_refl))) as (_ & _ & _ & _ & H1 & H1').
  pose proof (null_thread_id_skips_thread_query gif (route "0")
                (or_intror (or_intror eq_refl))) as (_ & _ & _ & _ & H2 & H2').
  pose proof (null_thread_id_skips_thread_query gif (initial None)
                (or_introl eq_refl)) as (_ & _ & _ & _ & H3 & H3').
  repeat split; try assumption; by vm_compute.
Defined.

(** What [Number] makes of some route parameters. *)
Example Number_of_route_parameters :
  JS.StringToNumber "12" = JS.ofZ 12 ∧
  JS.StringToNumber " 12 " = JS.ofZ 12 ∧
  JS.StringToNumber "0x1F" = JS.ofZ 31 ∧
  JS.StringToNumber "1e3" = JS.ofZ 1000 ∧
  JS.StringToNumber "-3" = JS.ofZ (-3) ∧
  JS.StringToNumber "1.5" = JS.Finite 3 (-1) ∧
  JS.StringToNumber "9007199254740993" = JS.Finite 1 53 ∧
  JS.StringToNumber "" = JS.Finite 0 0 ∧
  JS.StringToNumber "-0" = JS.Finite 0 0 ∧
  JS.StringToNumber "0.0" = JS.Finite 0 0 ∧
  JS.StringToNumber "1e-400" = JS.Finite 0 0 ∧
  JS.StringToNumber "1e400" = JS.Infinity false ∧
  JS.StringToNumber "-Infinity" = JS.Infinity true ∧
  JS.StringToNumber "abc" = JS.NaN ∧
  JS.StringToNumber "12px" = JS.NaN ∧
  JS.StringToNumber "1 2" = JS.NaN ∧
  JS.StringToNumber "-0x10" = JS.NaN ∧
  JS.Number (Some (JS.PArray ["7"])) = JS.ofZ 7 ∧
  JS.Number (Some (JS.PArray ["1"; "2"])) = JS.NaN ∧
  JS.Number (Some (JS.PArray [])) = JS.Finite 0 0.
Proof. vm_compute. repeat split. Qed.

(** * Further properties *)

(** ** How merges compose *)

Lemma mergeResponses_ids next (responses : list ThreadResponse.t) :
  ThreadResponse.id <$> mergeResponses next responses
  = ThreadResponse.id <$> responses.
Proof.
  unfold mergeResponses. rewrite <- list_fmap_compose.
  apply list_fmap_ext. intros i r _. cbn. by case_decide.
Qed.

Lemma mergeResponses_last_wins n1 n2 (responses : list ThreadResponse.t) :
  ThreadResponse.id n1 = ThreadResponse.id n2 →
  mergeResponses n2 (mergeResponses n1 responses) = mergeResponses n2 responses.
Proof.
  intros Hid. unfold mergeResponses. rewrite <- list_fmap_compose.
  apply list_fmap_ext. intros i r _. cbn.
  repeat case_decide; congruence.
Qed.

Lemma mergeResponses_commute n1 n2 (responses : list ThreadResponse.t) :
  ThreadResponse.id n1 ≠ ThreadResponse.id n2 →
  mergeResponses n2 (mergeResponses n1 responses)
  = mergeResponses n1 (mergeResponses n2 responses).
Proof.
  intros Hid. unfold mergeResponses. rewrite <- !list_fmap_compose.
  apply list_fmap_ext. intros i r _. cbn.
  repeat case_decide; congruence.
Qed.

Lemma merge_onCompleted_state next s :
  (threadResponse_onCompleted next s).2
  = match threadId s, thread s with
    | Some tid, Some t =>
        set_cache (<[tid := Thread.mk (Thread.id t) (Thread.sql t)
                              (mergeResponses next (Thread.responses t))]>
                     (cache s)) s
    | _, _ => s
    end.
Proof.
  destruct (thread s) as [t|] eqn:Ht.
  - apply thread_Some in Ht as (tid & Htid & Hc). rewrite Htid.
    by rewrite (merge_onCompleted_present _ _ _ _ Htid Hc).
  - unfold threadResponse_onCompleted.
    rewrite updateThreadQuery_absent by done. by destruct (threadId s).
Qed.

(** X1. Of two results for the same response the later one wins: merging
    the first and then the second leaves the page as merging the second
    alone does.  In particular a result merged twice is merged once. *)
Theorem later_result_for_same_response_wins n1 n2 s :
  ThreadResponse.id n1 = ThreadResponse.id n2 →
  (threadResponse_onCompleted n2 (threadResponse_onCompleted n1 s).2).2
  = (threadResponse_onCompleted n2 s).2.
Proof.
  intros Hid. rewrite !merge_onCompleted_state.
  destruct (threadId s) as [tid|] eqn:Htid; [|by rewrite Htid].
  destruct (thread s) as [t|] eqn:Ht; [|by rewrite Htid, Ht].
  change (threadId (set_cache _ s)) with (threadId s). rewrite Htid.
  rewrite (thread_set_cache s tid _ Htid).
  cbn [Thread.id Thread.sql Thread.responses cache set_cache].
  rewrite insert_insert_eq. by rewrite (mergeResponses_last_wins _ _ _ Hid).
Qed.

Lemma later_result_for_same_response_wins_witness :
  let a := ThreadResponse.mk 1 (Some "a") Status.pending None None in
  let a1 := ThreadResponse.mk 1 (Some "a") Status.generating None None in
  let a2 := ThreadResponse.mk 1 (Some "a") Status.finished None None in
  let s := set_cache {[ JS.ofZ 5 := Thread.mk 5 None [a] ]}
             (initial (Some {[ "id" := JS.PString "5" ]})) in
  thread (threadResponse_onCompleted a2 (threadResponse_onCompleted a1 s).2).2
  = Some (Thread.mk 5 None [a2]).
Proof.
  intros a a1 a2 s.
  rewrite (later_result_for_same_response_wins a1 a2 s eq_refl).
  by vm_compute.
Defined.

(** X2. Results for two different responses can be merged in either order:
    the page ends in the same state. *)
Theorem results_for_different_responses_commute n1 n2 s :
  ThreadResponse.id n1 ≠ ThreadResponse.id n2 →
  (threadResponse_onCompleted n2 (threadResponse_onCompleted n1 s).2).2
  = (threadResponse_onCompleted n1 (threadResponse_onCompleted n2 s).2).2.
Proof.
  intros Hid. rewrite !merge_onCompleted_state.
  destruct (threadId s) as [tid|] eqn:Htid; [|by rewrite !Htid].
  destruct (thread s) as [t|] eqn:Ht; [|by rewrite !Htid, !Ht].
  change (threadId (set_cache _ s)) with (threadId s). rewrite Htid.
  rewrite !(thread_set_cache s tid _ Htid).
  cbn [Thread.id Thread.sql Thread.responses cache set_cache].
  rewrite !insert_insert_eq. by rewrite (mergeResponses_commute _ _ _ Hid).
Qed.

Lemma results_for_different_responses_commute_witness :
  let a := ThreadResponse.mk 1 (Some "a") Status.pending None None in
  let b := ThreadResponse.mk 2 (Some "b") Status.pending None None in
  let a' := ThreadResponse.mk 1 (Some "a") Status.finished None None in
  let b' := ThreadResponse.mk 2 (Some "b") Status.failed None None in
  let s := set_cache {[ JS.ofZ 5 := Thread.mk 5 None [a; b] ]}
             (initial (Some {[ "id" := JS.PString "5" ]})) in
  thread (threadResponse_onCompleted b' (threadResponse_onCompleted a' s).2).2
  = Some (Thread.mk 5 None [a'; b']) ∧
  thread (threadResponse_onCompleted a' (threadResponse_onCompleted b' s).2).2
  = Some (Thread.mk 5 None [a'; b']).
Proof.
  intros a b a' b' s.
  rewrite <- (results_for_different_responses_commute a' b' s); [|discriminate].
  split; by vm_compute.
Defined.

(** X3. While the ids of the responses are distinct, merging a result is
    the replacement of one element: where [response] with the id of the
    result stands at index [i], the merged list is the list with [i] set to
    the result. *)
Theorem merge_is_replacement_at_index next
    (responses : list ThreadResponse.t) i response :
  NoDup (ThreadResponse.id <$> responses) →
  responses !! i = Some response →
  ThreadResponse.id response = ThreadResponse.id next →
  mergeResponses next responses = <[i := next]> responses.
Proof.
  intros Hnd Hi Hid. apply list_eq. intros j.
  destruct (responses !! j) as [r|] eqn:Hj.
  - rewrite (mergeResponses_lookup _ _ _ _ Hj).
    destruct (decide (i = j)) as [->|Hne].
    + rewrite list_lookup_insert_eq by (by eapply lookup_lt_Some).
      rewrite Hi in Hj. injection Hj as <-. by rewrite decide_True.
    + rewrite list_lookup_insert_ne by done. rewrite Hj.
      rewrite decide_False; [done|]. intros Heq. apply Hne.
      apply (NoDup_lookup _ i j (ThreadResponse.id next) Hnd).
      * by rewrite list_lookup_fmap, Hi, <- Hid.
      * by rewrite list_lookup_fmap, Hj, <- Heq.
  - apply lookup_ge_None in Hj.
    rewrite (proj2 (lookup_ge_None (mergeResponses next responses) j))
      by (by rewrite mergeResponses_length).
    symmetry. apply lookup_ge_None. by rewrite length_insert.
Qed.

Lemma merge_is_replacement_at_index_witness :
  let a := ThreadResponse.mk 1 (Some "a") Status.finished None None in
  let b := ThreadResponse.mk 2 (Some "b") Status.pending None None in
  let b' := ThreadResponse.mk 2 (Some "b") Status.finished None None in
  mergeResponses b' [a; b] = [a; b'].
Proof.
  intros a b b'.
  rewrite (merge_is_replacement_at_index b' [a; b] 1%nat b).
  - reflexivity.
  - cbn. apply NoDup_cons.
    split; [by intros Hin%list_elem_of_singleton|]. apply NoDup_singleton.
  - reflexivity.
  - reflexivity.
Defined.

(** X4. A merge keeps the ids of the responses, position by position, so
    ids that are distinct stay distinct under any number of merges; a
    creation adds the id of its response after all the others, so they stay
    distinct when that id is new. *)
Theorem distinct_ids_are_kept next (responses : list ThreadResponse.t) :
  NoDup (ThreadResponse.id <$> responses) →
  ThreadResponse.id <$> mergeResponses next responses
  = ThreadResponse.id <$> responses ∧
  NoDup (ThreadResponse.id <$> mergeResponses next responses) ∧
  (ThreadResponse.id next ∉ ThreadResponse.id <$> responses →
   NoDup (ThreadResponse.id <$> responses ++ [next])).
Proof.
  intros Hnd. split; [apply mergeResponses_ids|]. split.
  - by rewrite mergeResponses_ids.
  - intros Hnew. rewrite fmap_app. apply NoDup_app. split; [done|].
    split; [|apply NoDup_singleton].
    intros x Hx Hx'%list_elem_of_singleton. by subst.
Qed.

Lemma distinct_ids_are_kept_witness :
  let a := ThreadResponse.mk 1 (Some "a") Status.finished None None in
  let b := ThreadResponse.mk 2 (Some "b") Status.pending None None in
  let b' := ThreadResponse.mk 2 (Some "b") Status.finished None None in
  NoDup (ThreadResponse.id <$> mergeResponses b' [a; b]).
Proof.
  intros a b b'.
  refine (proj1 (proj2 (distinct_ids_are_kept b' [a; b] _))).
  cbn. apply NoDup_cons.
  split; [by intros Hin%list_elem_of_singleton|]. apply NoDup_singleton.
Defined.

(** ** No conversation selected *)

Lemma thread_null s : threadId s = None → thread s = None.
Proof. intros H. unfold thread, data. by rewrite H. Qed.

Lemma pass_idle gif s : idle s → idle (pass gif s).2.
Proof.
  intros (Hnull & (d & Hd & Hdth) & Hp1 & Hp2).
  split; [by rewrite pass_threadId|].
  split.
  { exists (deps gif s). split; [apply pass_rendered|].
    cbn. by apply thread_null. }
  run_pass. unfold deps. rewrite Hd.
  rewrite Hnull, (thread_null s Hnull).
  cbn [unfinishedRespose from_option find Deps.threadId Deps.thread].
  destruct (threadResponseResult s) as [v1 p1 d1] eqn:E1.
  destruct (threadRecommendationQuestionsResult s) as [v2 p2 d2] eqn:E2.
  cbn in Hp1, Hp2. subst p1 p2.
  generalize (isFinished gif s) (recommendedQuestions s). intros fin rq.
  run_M; split_conditions; run_M; rewrite ?E1, ?E2; by split.
Qed.

Lemma render_idle gif s :
  idle s → idle (render gif s).2 ∧ requests (render gif s).2 = requests s.
Proof.
  intros Hidle. split.
  - apply render_keeps; [apply pass_idle | exact Hidle].
  - apply render_null_sends_nothing, Hidle.
Qed.

Lemma handler_idle gif s e :
  idle s → is_route e = false →
  idle (handler gif e s).2 ∧ requests (handler gif e s).2 = requests s.
Proof.
  intros Hidle He.
  pose proof Hidle as (Hnull & (d & Hd & Hdth) & Hp1 & Hp2).
  destruct e as [|p|tid t|next|next| | |payload created generated fetched];
    try discriminate He; cbn [handler].
  - by split.
  - by split.
  - rewrite deliverThreadResponse_spec. cbn [snd]. split; [|reflexivity].
    split; [exact Hnull|]. split; [by exists d|]. by split.
  - run_M. split; [|reflexivity].
    split; [exact Hnull|]. split; [by exists d|]. by split.
  - run_M. destruct (threadResponseResult s) as [[v|] p dt];
      cbn in Hp1; subst p; by split.
  - run_M. destruct (threadRecommendationQuestionsResult s) as [[v|] p dt];
      cbn in Hp2; subst p; by split.
  - unfold onSelect, tryCatch. run_M. rewrite Hd. cbn. rewrite Hdth. cbn.
    split; [|reflexivity].
    split; [exact Hnull|]. split; [by exists d|]. by split.
Qed.

Lemma step_idle gif s e :
  idle s → is_route e = false →
  idle (step gif s e) ∧ requests (step gif s e) = requests s.
Proof.
  intros Hidle He. destruct (handler_idle gif s e Hidle He) as [Hi Hr].
  unfold step. destruct (handler gif e s) as [[a|x] s1]; cbn in *.
  - destruct (render_idle gif s1 Hi) as [? ->]. by split.
  - assert (idle (set_uncaught (uncaught s1 ++ [x]) s1)) as Hi' by exact Hi.
    destruct (render_idle gif _ Hi') as [? ->]. by split.
Qed.

(** X6. With no conversation selected and the pollers at rest, the page
    sends nothing until the route changes: whatever results arrive late,
    whatever timers tick, whatever the user selects, no operation is sent
    and the pollers stay at rest. *)
Theorem no_conversation_no_traffic gif es s :
  idle s →
  forallb (λ e, negb (is_route e)) es = true →
  requests (run gif s es) = requests s ∧ idle (run gif s es).
Proof.
  revert s. unfold run. induction es as [|e es IH]; intros s Hidle Hes;
    [by split|].
  cbn in Hes. apply andb_prop in Hes as [He Hes].
  apply negb_true_iff in He.
  destruct (step_idle gif s e Hidle He) as [Hi Hr].
  cbn. destruct (IH _ Hi Hes) as [-> ?]. by split.
Qed.

Lemma no_conversation_no_traffic_witness :
  let gif := useAskPrompt.getIsFinished in
  let a := ThreadResponse.mk 7 (Some "a") Status.pending None None in
  let a' := ThreadResponse.mk 7 (Some "a") Status.finished None None in
  let s := run gif (initial (Some {[ "id" := JS.PString "1" ]}))
             [Mount; ThreadResult (JS.ofZ 1) (Thread.mk 1 None [a]);
              Route None] in
  let es := [ThreadResponseResult a'; ThreadResponseTick; RecommendationTick;
             RecommendationResult
               (RecommendedQuestionsTask.mk
                  RecommendedQuestionsTaskStatus.finished [] None);
             Select (CreateThreadResponseInput.mk (Some "q") None None)
               (Normal a) (Normal ()) None] in
  requests (run gif s es) = requests s.
Proof.
  intros gif a a' s es.
  refine (proj1 (no_conversation_no_traffic gif es s _ _)).
  - split; [by vm_compute|]. split.
    + eexists. split; by vm_compute.
    + split; by vm_compute.
  - reflexivity.
Defined.

(** ** Without a thread *)

(** X7. A candidate selected while the page has no thread (the route has no
    id, or the thread has not arrived) sends nothing, whatever the server
    would have answered: reading [thread.id] throws before the mutation is
    called, [onSelect] catches the error and logs it, and the one change is
    that the asking-task poller is stopped. *)
Theorem select_without_thread_sends_nothing
    gif s payload created generated fetched :
  rendered s = Some (deps gif s) →
  thread s = None →
  step gif s (Select payload created generated fetched)
  = set_console (console s ++ [TypeError])
      (set_askPrompt (AskPrompt.onStopPolling (askPrompt s)) s).
Proof.
  intros Hs Ht. unfold step. cbn [handler].
  unfold onSelect, tryCatch. run_M. rewrite Hs. cbn. rewrite Ht. cbn.
  apply (f_equal snd
    (render_settled gif (set_console _ (set_askPrompt _ s)) Hs)).
Qed.

Lemma select_without_thread_sends_nothing_witness :
  let gif := useAskPrompt.getIsFinished in
  let a := ThreadResponse.mk 7 (Some "a") Status.pending None None in
  let s := step gif (initial (Some {[ "id" := JS.PString "1" ]})) Mount in
  let s' := step gif s
              (Select (CreateThreadResponseInput.mk (Some "q") None None)
                 (Normal a) (Normal ()) (Some a)) in
  requests s' = requests s ∧ console s' = [TypeError] ∧ cache s' = ∅.
Proof.
  intros gif a s s'. subst s'.
  rewrite (select_without_thread_sends_nothing gif s); [|by vm_compute..].
  repeat split; by vm_compute.
Defined.

Lemma pass_keeps_uncaught gif s : uncaught (pass gif s).2 = uncaught s.
Proof.
  run_pass. unfold deps.
  generalize (unfinishedRespose gif (thread s)). intros u.
  generalize (threadId s) (thread s) (isFinished gif s)
    (recommendedQuestions s). intros tid th fin rq.
  destruct (rendered s) as [[tid0 th0 fin0 rq0]|]; cbn.
  all: run_M; split_conditions; run_M; reflexivity.
Qed.

Lemma render_keeps_uncaught gif s : uncaught (render gif s).2 = uncaught s.
Proof.
  apply (render_keeps gif (λ s', uncaught s' = uncaught s)); [|done].
  intros s' <-. apply pass_keeps_uncaught.
Qed.

Lemma pass_keeps_threadResponse gif s :
  thread s = None → threadResponse (pass gif s).2 = threadResponse s.
Proof.
  intros Ht. run_pass. unfold deps.
  rewrite Ht. cbn [unfinishedRespose from_option find Deps.thread].
  generalize (threadId s) (isFinished gif s) (recommendedQuestions s).
  intros tid fin rq.
  destruct (rendered s) as [[tid0 th0 fin0 rq0]|]; cbn.
  all: run_M; split_conditions; run_M; reflexivity.
Qed.

Lemma render_keeps_threadResponse gif s :
  thread s = None → threadResponse (render gif s).2 = threadResponse s.
Proof.
  intros Ht.
  apply (render_keeps gif
           (λ s', thread s' = None ∧ threadResponse s' = threadResponse s));
    [|done].
  intros s' [Ht' <-]. split; [by rewrite pass_thread|].
  by apply pass_keeps_threadResponse.
Qed.

(** X8. A result of the thread-response query that arrives while the page
    has no thread is kept as the last result of the query, but its merge
    throws on [prev.thread.responses] and nothing catches it; the page still
    has no thread. *)
Theorem result_without_thread_is_not_merged gif s next :
  thread s = None →
  let s' := step gif s (ThreadResponseResult next) in
  threadResponse s' = Some next ∧
  uncaught s' = uncaught s ++ [TypeError] ∧
  thread s' = None.
Proof.
  intros Ht s'. subst s'. unfold step. cbn [handler].
  rewrite deliverThreadResponse_spec, Ht.
  set (s0 := set_threadResponseResult _ _).
  set (s1 := set_uncaught _ s0).
  assert (thread s1 = None) as Ht1.
  { transitivity (thread (set_cache (writeThreadResponse next (cache s)) s));
      [by apply thread_ext|].
    by rewrite thread_writeThreadResponse, Ht. }
  split; [by rewrite render_keeps_threadResponse|].
  split; [by rewrite render_keeps_uncaught|].
  by rewrite render_thread.
Qed.

Lemma result_without_thread_is_not_merged_witness :
  let gif := useAskPrompt.getIsFinished in
  let a := ThreadResponse.mk 7 (Some "a") Status.finished None None in
  let s := step gif (initial None) Mount in
  uncaught (step gif s (ThreadResponseResult a)) = [TypeError].
Proof.
  intros gif a s.
  destruct (result_without_thread_is_not_merged gif s a) as (_ & H & _);
    [by vm_compute|].
  exact H.
Defined.

(** ** The questions kept for the instant recommendations *)

Lemma questionsOf_omap responses :
  questionsOf responses
  = omap (λ res, q ← ThreadResponse.question res;
                 if decide (q = "") then None else Some q) responses.
Proof.
  unfold questionsOf. induction responses as [|r rs IH]; [reflexivity|].
  cbn. rewrite <- IH.
  destruct (ThreadResponse.question r) as [q|]; cbn; [|reflexivity].
  by destruct (decide (q = "")).
Qed.

Lemma omap_length_le {A B} (f : A → option B) (l : list A) :
  (length (omap f l) ≤ length l)%nat.
Proof.
  induction l as [|x l IH]; cbn; [lia|]. destruct (f x); cbn; lia.
Qed.

(** X9. After the effect on a thread, the questions kept for the instant
    recommendations are the questions of its responses in their order,
    without those that are null or empty: a question is kept exactly when
    it is not empty and is the question of a response.  Without a thread
    the questions kept before stay. *)
Theorem stored_questions_are_the_nonempty_ones gif thread s :
  let kept := AskPrompt.threadQuestions (askPrompt (effect_thread gif thread s).2) in
  match thread with
  | Some t =>
      kept = omap (λ res, q ← ThreadResponse.question res;
                          if decide (q = "") then None else Some q)
               (Thread.responses t) ∧
      (∀ q, q ∈ kept ↔
            q ≠ "" ∧ ∃ res, res ∈ Thread.responses t ∧
                            ThreadResponse.question res = Some q) ∧
      (length kept ≤ length (Thread.responses t))%nat
  | None => kept = AskPrompt.threadQuestions (askPrompt s)
  end.
Proof.
  intros kept. subst kept. unfold effect_thread.
  destruct thread as [t|].
  - assert (AskPrompt.threadQuestions
              (askPrompt
                 ((match unfinishedRespose gif (Some t) with
                   | Some response =>
                       fetchThreadResponse (ThreadResponse.id response)
                   | None => mret ()
                   end;;
                   askPrompt_onStoreThreadQuestions
                     (questionsOf (Thread.responses t))) s).2)
            = questionsOf (Thread.responses t)) as ->.
    { destruct (unfinishedRespose gif (Some t)); run_M; reflexivity. }
    rewrite questionsOf_omap. split; [reflexivity|]. split.
    + intros q. rewrite list_elem_of_omap. split.
      * intros (res & Hres & Hq).
        destruct (ThreadResponse.question res) as [q'|] eqn:E;
          [|discriminate]. cbn in Hq.
        destruct (decide (q' = "")); [discriminate|].
        injection Hq as <-. eauto.
      * intros (Hne & res & Hres & Hq). exists res. split; [done|].
        rewrite Hq. cbn. by rewrite decide_False.
    + apply omap_length_le.
  - cbn [unfinishedRespose from_option find]. run_M. reflexivity.
Qed.

(** ** What a choice of the user sends and writes *)

Lemma mutations_app_query s r :
  is_mutation r = false →
  filter is_mutation (requests s ++ [r]) = mutations s.
Proof.
  intros Hr. unfold mutations. rewrite filter_app.
  rewrite filter_cons_False by (rewrite Hr; exact id).
  rewrite filter_nil. apply app_nil_r.
Qed.

Lemma mutations_app_mutation s r :
  is_mutation r = true →
  filter is_mutation (requests s ++ [r]) = mutations s ++ [r].
Proof.
  intros Hr. unfold mutations. rewrite filter_app.
  rewrite filter_cons_True by (rewrite Hr; exact I).
  by rewrite filter_nil.
Qed.

Lemma sends_no_mutation_ret {A} (a : A) : sends_no_mutation (mret a : M A).
Proof. by intros s. Qed.

Lemma sends_no_mutation_bind {A B} (m : M A) (f : A → M B) :
  sends_no_mutation m → (∀ a, sends_no_mutation (f a)) →
  sends_no_mutation (m ≫= f).
Proof.
  intros Hm Hf s. unfold mbind, M_bind. specialize (Hm s).
  destruct (m s) as [[a|e] s1]; cbn in *; [|exact Hm].
  by rewrite Hf.
Qed.

Lemma sends_no_mutation_modify (f : HomeThread → HomeThread) :
  (∀ s, requests (f s) = requests s) → sends_no_mutation (modify f).
Proof. intros Hf s. unfold mutations. cbn. by rewrite Hf. Qed.

Lemma sends_no_mutation_gets {A} (f : HomeThread → A) :
  sends_no_mutation (gets f).
Proof. by intros s. Qed.

Lemma sends_no_mutation_when b (m : M ()) :
  sends_no_mutation m → sends_no_mutation (when b m).
Proof. destruct b; [done|]. intros _. apply sends_no_mutation_ret. Qed.

Lemma sends_no_mutation_request r :
  is_mutation r = false → sends_no_mutation (request r).
Proof. intros Hr s. cbn. by apply mutations_app_query. Qed.

(** Proves [sends_no_mutation] by the structure of the code. *)
Ltac no_mutation :=
  repeat first
    [ apply sends_no_mutation_ret
    | apply sends_no_mutation_gets
    | apply sends_no_mutation_request; reflexivity
    | apply sends_no_mutation_modify; intros; reflexivity
    | apply sends_no_mutation_when
    | apply sends_no_mutation_bind; [|intros ?]
    | match goal with
      | |- sends_no_mutation (match ?x with _ => _ end) => destruct x
      end ].

Lemma sends_no_mutation_fetchThreadResponse responseId :
  sends_no_mutation (fetchThreadResponse responseId).
Proof. unfold fetchThreadResponse. no_mutation. Qed.

Lemma sends_no_mutation_fetchThreadRecommendationQuestions tid :
  sends_no_mutation (fetchThreadRecommendationQuestions tid).
Proof. unfold fetchThreadRecommendationQuestions. no_mutation. Qed.

Lemma sends_no_mutation_render gif : sends_no_mutation (render gif).
Proof.
  unfold render, effect_threadId, effect_thread, effect_isFinished,
    effect_recommendedQuestions, askPrompt_onStopPolling,
    askPrompt_onStoreThreadQuestions, threadResponseResult_stopPolling,
    threadRecommendationQuestionsResult_stopPolling, prompt_close,
    setShowRecommendedQuestions.
  no_mutation;
    first [ apply sends_no_mutation_fetchThreadResponse
          | apply sends_no_mutation_fetchThreadRecommendationQuestions ].
Qed.

Lemma sends_no_mutation_updateThreadQuery mapFn :
  sends_no_mutation (updateThreadQuery mapFn).
Proof.
  intros s. destruct (updateThreadQuery_only_cache mapFn s) as [c ->].
  reflexivity.
Qed.

(** Runs at the head of the goal a computation that is steady and sends no
    mutation. *)
Lemma steady_run {A} (m : M A) s :
  steady m → sends_no_mutation m →
  ∃ a s', m s = (Normal a, s') ∧ thread s' = thread s ∧
          threadId s' = threadId s ∧ mutations s' = mutations s.
Proof.
  intros Hm Hq. destruct (Hm s) as (a & Ha & Hc & Hp). specialize (Hq s).
  destruct (m s) as [c s']; cbn in *; subst c.
  exists a, s'. split; [reflexivity|].
  split; [by apply thread_ext|]. split; [by apply threadId_ext | exact Hq].
Qed.

Lemma thread_after_append next s t :
  thread s = Some t →
  ∃ s', createThreadResponse_onCompleted next s = (Normal (), s') ∧
        thread s' = Some (Thread.mk (Thread.id t) (Thread.sql t)
                            (Thread.responses t ++ [next])) ∧
        threadId s' = threadId s ∧ mutations s' = mutations s.
Proof.
  intros Ht. apply thread_Some in Ht as (tid & Htid & Hc).
  rewrite (append_onCompleted_present _ _ _ _ Htid Hc).
  eexists. split; [reflexivity|]. split; [by apply thread_set_cache|].
  by split.
Qed.

Lemma thread_after_merge next s t :
  thread s = Some t →
  ∃ s', threadResponse_onCompleted next s = (Normal (), s') ∧
        thread s' = Some (Thread.mk (Thread.id t) (Thread.sql t)
                            (mergeResponses next (Thread.responses t))) ∧
        threadId s' = threadId s ∧ mutations s' = mutations s.
Proof.
  intros Ht. apply thread_Some in Ht as (tid & Htid & Hc).
  rewrite (merge_onCompleted_present _ _ _ _ Htid Hc).
  eexists. split; [reflexivity|]. split; [by apply thread_set_cache|].
  by split.
Qed.

Lemma thread_after_deliver next s t :
  thread s = Some t →
  ∃ s', deliverThreadResponse next s = (Normal (), s') ∧
        thread s' = Some (Thread.mk (Thread.id t) (Thread.sql t)
                            (mergeResponses next (Thread.responses t))) ∧
        threadId s' = threadId s ∧ mutations s' = mutations s.
Proof.
  intros Ht. rewrite deliverThreadResponse_spec, Ht.
  eexists. split; [reflexivity|]. split; [|by split].
  transitivity (thread (set_cache (writeThreadResponse next (cache s)) s));
    [by apply thread_ext|].
  by rewrite thread_writeThreadResponse, Ht.
Qed.

Lemma onSelect_writes_and_sends gif t0 payload created generated fetched s t :
  thread s = Some t →
  ∃ c s',
    onSelect gif (Some t0) payload created generated fetched s = (c, s') ∧
    thread s'
    = Some (match created with
            | Normal next =>
                Thread.mk (Thread.id t) (Thread.sql t)
                  (selected next generated fetched (Thread.responses t))
            | Throw _ => t
            end) ∧
    mutations s'
    = mutations s ++
      selection_mutations (Thread.id t0)
        (Select payload created generated fetched).
Proof.
  intros Ht. unfold onSelect, tryCatch, mbind, M_bind.
  destruct (steady_run askPrompt_onStopPolling s
              steady_askPrompt_onStopPolling
              ltac:(unfold askPrompt_onStopPolling; no_mutation))
    as (a0 & s0 & -> & Ht0 & _ & Hm0).
  cbn beta iota. unfold thread_id, mret, M_ret.
  unfold createThreadResponse, mbind, M_bind.
  unfold request at 1, modify.
  set (s1 := set_requests _ s0).
  assert (thread s1 = Some t) as Ht1 by (by rewrite <- Ht, <- Ht0).
  assert (mutations s1
          = mutations s ++ [CreateThreadResponseM (Thread.id t0) payload])
    as Hm1 by (rewrite <- Hm0; by apply mutations_app_mutation).
  destruct (steady_run (render gif) s1 (steady_render gif)
              (sends_no_mutation_render gif))
    as (a2 & s2 & -> & Ht2 & _ & Hm2).
  cbn beta iota. unfold completion.
  destruct created as [next|e]; cbn [selection_mutations].
  2:{ eexists _, _. split; [reflexivity|].
      split; [exact (eq_trans Ht2 Ht1) | exact (eq_trans Hm2 Hm1)]. }
  rewrite Ht1 in Ht2.
  destruct (thread_after_append next s2 _ Ht2) as (s3 & -> & Ht3 & _ & Hm3).
  cbn beta iota. unfold mret, M_ret. cbn beta iota.
  unfold generateThreadRecommendationQuestions, mbind, M_bind.
  unfold request at 1, modify. cbn beta iota.
  set (s4 := set_requests _ s3).
  assert (thread s4 = thread s3) as Ht4 by reflexivity.
  assert (mutations s4
          = mutations s ++
            [CreateThreadResponseM (Thread.id t0) payload;
             GenerateThreadRecommendationQuestionsM (Thread.id t0)])
    as Hm4.
  { unfold s4. unfold mutations at 1. cbn [requests set_requests].
    rewrite mutations_app_mutation by done.
    rewrite Hm3, Hm2, Hm1. by rewrite <- app_assoc. }
  destruct (steady_run (render gif) s4 (steady_render gif)
              (sends_no_mutation_render gif))
    as (a5 & s5 & -> & Ht5 & _ & Hm5).
  cbn beta iota. unfold completion.
  destruct generated as [[]|e].
  2:{ eexists _, _. split; [reflexivity|].
      split; [exact (eq_trans Ht5 (eq_trans Ht4 Ht3))
             | exact (eq_trans Hm5 Hm4)]. }
  cbn beta iota.
  unfold setShowRecommendedQuestions at 1, modify. cbn beta iota.
  set (s6 := set_showRecommendedQuestions false s5).
  unfold awaitThreadResponse, mbind, M_bind.
  destruct (steady_run (fetchThreadResponse (ThreadResponse.id next)) s6
              (steady_fetchThreadResponse _)
              (sends_no_mutation_fetchThreadResponse _))
    as (a7 & s7 & -> & Ht7 & _ & Hm7).
  cbn beta iota.
  destruct (steady_run (render gif) s7 (steady_render gif)
              (sends_no_mutation_render gif))
    as (a8 & s8 & -> & Ht8 & _ & Hm8).
  cbn beta iota.
  assert (thread s8 = Some (Thread.mk (Thread.id t) (Thread.sql t)
                              (Thread.responses t ++ [next]))) as Ht8'.
  { rewrite Ht8, Ht7. change (thread s6) with (thread s5).
    by rewrite Ht5, Ht4. }
  assert (mutations s8
          = mutations s ++
            [CreateThreadResponseM (Thread.id t0) payload;
             GenerateThreadRecommendationQuestionsM (Thread.id t0)])
    as Hm8'.
  { rewrite Hm8, Hm7. change (mutations s6) with (mutations s5).
    by rewrite Hm5. }
  destruct fetched as [first|].
  - destruct (thread_after_deliver first s8 _ Ht8')
      as (s10 & -> & Ht10 & _ & Hm10).
    cbn beta iota.
    destruct (steady_run
                (fetchThreadRecommendationQuestions (JS.ofZ (Thread.id t0)))
                s10 (steady_fetchThreadRecommendationQuestions _)
                (sends_no_mutation_fetchThreadRecommendationQuestions _))
      as (a11 & s11 & -> & Ht11 & _ & Hm11).
    eexists _, _. split; [reflexivity|].
    split; [exact (eq_trans Ht11 Ht10)
           | exact (eq_trans Hm11 (eq_trans Hm10 Hm8'))].
  - cbn beta iota. unfold mret, M_ret. cbn beta iota.
    destruct (steady_run
                (fetchThreadRecommendationQuestions (JS.ofZ (Thread.id t0)))
                s8 (steady_fetchThreadRecommendationQuestions _)
                (sends_no_mutation_fetchThreadRecommendationQuestions _))
      as (a11 & s11 & -> & Ht11 & _ & Hm11).
    eexists _, _. split; [reflexivity|].
    split; [exact (eq_trans Ht11 Ht8') | exact (eq_trans Hm11 Hm8')].
Qed.

(** X10. When the creation of a response succeeds, the response goes after
    all the responses of the conversation, whether the generation of
    recommendations succeeds or fails; when the generation succeeds and the
    first result of the poll is there, that result is merged at once.  The
    conversation keeps its id and its other responses. *)
Theorem selection_appends_then_merges
    gif s d t0 t payload next generated fetched :
  rendered s = Some d →
  Deps.thread d = Some t0 →
  thread s = Some t →
  thread (step gif s (Select payload (Normal next) generated fetched))
  = Some (Thread.mk (Thread.id t) (Thread.sql t)
            (selected next generated fetched (Thread.responses t))).
Proof.
  intros Hd Ht0 Ht. unfold step. cbn [handler].
  unfold mbind at 1, M_bind at 1, gets. rewrite Hd.
  cbn [mbind option_bind]. rewrite Ht0.
  destruct (onSelect_writes_and_sends gif t0 payload (Normal next) generated
              fetched s t Ht) as (c & s' & -> & Ht' & _).
  destruct c as [a|x]; rewrite render_thread; exact Ht'.
Qed.

Lemma selection_appends_then_merges_witness :
  let gif := useAskPrompt.getIsFinished in
  let a := ThreadResponse.mk 1 (Some "a") Status.finished None None in
  let b := ThreadResponse.mk 2 (Some "b") Status.pending None None in
  let b' := ThreadResponse.mk 2 (Some "b") Status.generating None None in
  let payload := CreateThreadResponseInput.mk (Some "b") None None in
  let s := run gif (initial (Some {[ "id" := JS.PString "5" ]}))
             [Mount; ThreadResult (JS.ofZ 5) (Thread.mk 5 None [a])] in
  thread (step gif s (Select payload (Normal b) (Normal ()) (Some b')))
  = Some (Thread.mk 5 None [a; b']) ∧
  thread (step gif s (Select payload (Normal b) (Throw ApolloError) (Some b')))
  = Some (Thread.mk 5 None [a; b]).
Proof.
  intros gif a b b' payload s.
  pose (d := Deps.mk (Some (JS.ofZ 5)) (Some (Thread.mk 5 None [a])) false None).
  assert (rendered s = Some d) as Hd by (by vm_compute).
  assert (thread s = Some (Thread.mk 5 None [a])) as Ht by (by vm_compute).
  split.
  - by rewrite (selection_appends_then_merges gif s d _ _ payload b
                  (Normal ()) (Some b') Hd eq_refl Ht).
  - by rewrite (selection_appends_then_merges gif s d _ _ payload b
                  (Throw ApolloError) (Some b') Hd eq_refl Ht).
Defined.

Lemma handler_mutations gif s e d t0 t :
  rendered s = Some d →
  Deps.thread d = Some t0 →
  thread s = Some t →
  conversation_event e = true →
  ∃ c s' t',
    handler gif e s = (c, s') ∧
    thread s' = Some t' ∧ Thread.id t' = Thread.id t ∧
    mutations s' = mutations s ++ selection_mutations (Thread.id t0) e.
Proof.
  intros Hd Ht0 Ht He.
  destruct e as [| | |next|next| | |payload created generated fetched];
    try discriminate He; cbn [handler selection_mutations].
  - eexists _, _, t. split; [reflexivity|]. split; [exact Ht|].
    split; [reflexivity|]. symmetry. apply app_nil_r.
  - destruct (thread_after_deliver next s t Ht) as (s1 & -> & Ht1 & _ & Hm1).
    eexists _, _, _. split; [reflexivity|]. split; [exact Ht1|].
    split; [reflexivity|]. rewrite Hm1. symmetry. apply app_nil_r.
  - eexists _, _, t. split; [reflexivity|]. split; [exact Ht|].
    split; [reflexivity|]. symmetry. apply app_nil_r.
  - unfold mbind, M_bind, gets.
    destruct (threadResponseResult s) as [[v|] [] dt]; cbn;
      eexists _, _, t; (split; [reflexivity|]); (split; [exact Ht|]);
      (split; [reflexivity|]); rewrite app_nil_r; try reflexivity.
    by apply mutations_app_query.
  - unfold mbind, M_bind, gets.
    destruct (threadRecommendationQuestionsResult s) as [[v|] [] dt]; cbn;
      eexists _, _, t; (split; [reflexivity|]); (split; [exact Ht|]);
      (split; [reflexivity|]); rewrite app_nil_r; try reflexivity.
    by apply mutations_app_query.
  - unfold mbind at 1, M_bind at 1, gets. rewrite Hd.
    cbn [mbind option_bind]. rewrite Ht0.
    destruct (onSelect_writes_and_sends gif t0 payload created generated
                fetched s t Ht) as (c & s' & -> & Ht' & Hm').
    eexists _, _, _. split; [reflexivity|]. split; [exact Ht'|].
    split; [by destruct created | exact Hm'].
Qed.

Lemma step_mutations gif s e d t0 t :
  rendered s = Some d →
  Deps.thread d = Some t0 →
  thread s = Some t →
  Thread.id t0 = Thread.id t →
  conversation_event e = true →
  let s' := step gif s e in
  mutations s' = mutations s ++ selection_mutations (Thread.id t) e ∧
  ∃ d' t', rendered s' = Some d' ∧ Deps.thread d' = Some t' ∧
           thread s' = Some t' ∧ Thread.id t' = Thread.id t.
Proof.
  intros Hd Ht0 Ht Hid He s'. subst s'. unfold step.
  destruct (handler_mutations gif s e d t0 t Hd Ht0 Ht He)
    as (c & s1 & t' & -> & Ht' & Hid' & Hm).
  rewrite Hid in Hm.
  set (s2 := match c with
             | Normal _ => s1
             | Throw x => set_uncaught (uncaught s1 ++ [x]) s1
             end).
  assert (thread s2 = Some t' ∧ mutations s2 = mutations s1) as [Ht2 Hm2]
    by (subst s2; by destruct c).
  replace (match c with
           | Normal _ => s1
           | Throw x => set_uncaught (uncaught s1 ++ [x]) s1
           end) with s2 by reflexivity.
  split.
  - by rewrite sends_no_mutation_render, Hm2.
  - exists (deps gif (render gif s2).2), t'. split; [apply render_settles|].
    split; [cbn; by rewrite render_thread|].
    split; [by rewrite render_thread | exact Hid'].
Qed.

(** X11. On a page that has rendered its conversation, over any sequence of
    events that keeps it on that conversation, the mutations sent are those
    of the choices of the user, in order: each choice sends one creation
    for the thread, followed by one generation of recommendations exactly
    when the creation succeeded.  Renders, ticks and results never send a
    mutation. *)
Theorem mutations_are_those_of_the_selections gif es s d t0 t :
  rendered s = Some d →
  Deps.thread d = Some t0 →
  thread s = Some t →
  Thread.id t0 = Thread.id t →
  forallb conversation_event es = true →
  mutations (run gif s es)
  = mutations s ++ (es ≫= selection_mutations (Thread.id t)).
Proof.
  revert s d t0 t. unfold run.
  induction es as [|e es IH]; intros s d t0 t Hd Ht0 Ht Hid Hes; cbn.
  - symmetry. apply app_nil_r.
  - cbn in Hes. apply andb_prop in Hes as [He Hes].
    destruct (step_mutations gif s e d t0 t Hd Ht0 Ht Hid He)
      as (Hm & d' & t' & Hd' & Ht0' & Ht' & Hid').
    rewrite (IH _ d' t' t' Hd' Ht0' Ht' eq_refl Hes).
    rewrite Hm, Hid'. by rewrite <- app_assoc.
Qed.

Lemma mutations_are_those_of_the_selections_witness :
  let gif := useAskPrompt.getIsFinished in
  let payload := CreateThreadResponseInput.mk (Some "q") None None in
  let r1 := ThreadResponse.mk 7 (Some "q") Status.pending None None in
  let r1' := ThreadResponse.mk 7 (Some "q") Status.finished None None in
  let s := run gif (initial (Some {[ "id" := JS.PString "1" ]}))
             [Mount; ThreadResult (JS.ofZ 1) (Thread.mk 1 None [])] in
  let es := [Select payload (Normal r1) (Normal ()) (Some r1);
             ThreadResponseTick;
             ThreadResponseResult r1';
             Select payload (Throw ApolloError) (Normal ()) None] in
  mutations (run gif s es)
  = [CreateThreadResponseM 1 payload;
     GenerateThreadRecommendationQuestionsM 1;
     CreateThreadResponseM 1 payload].
Proof.
  intros gif payload r1 r1' s es.
  rewrite (mutations_are_those_of_the_selections gif es s
             (Deps.mk (Some (JS.ofZ 1)) (Some (Thread.mk 1 None [])) false None)
             (Thread.mk 1 None []) (Thread.mk 1 None [])).
  - by vm_compute.
  - by vm_compute.
  - reflexivity.
  - by vm_compute.
  - reflexivity.
  - reflexivity.
Defined.

(** ** The answer that finishes a response *)




(** ** A created response and its convergence *)








(** ** The route of a thread *)

Lemma foldl_digits (a : Z) (l : list Z) :
  foldl (λ acc v, acc * 10 + v) a l
  = a * 10 ^ Z.of_nat (length l) + foldl (λ acc v, acc * 10 + v) 0 l.
Proof.
  revert a. induction l as [|v l IH]; intros a; cbn [foldl length].
  - cbn. lia.
  - rewrite IH, (IH (0 * 10 + v)). rewrite Nat2Z.inj_succ, Z.pow_succ_r by lia.
    lia.
Qed.

Lemma takeDigits_digitBytes l :
  digitBytes l → JS.takeDigits 10 l = ((λ c, c - 48) <$> l, []).
Proof.
  induction 1 as [|c l Hc _ IH]; [reflexivity|].
  cbn [JS.takeDigits]. unfold JS.digitIn.
  rewrite (proj2 (Z.leb_le 48 c)), (proj2 (Z.leb_le c 57)) by lia.
  cbn [andb]. rewrite (proj2 (Z.ltb_lt (c - 48) 10)) by lia.
  by rewrite IH.
Qed.

Lemma bytes_String a s :
  JS.bytes (String a s) = Z.of_N (N_of_ascii a) :: JS.bytes s.
Proof. reflexivity. Qed.

Lemma pretty_N_char_byte (d : N) :
  (d < 10)%N → Z.of_N (N_of_ascii (pretty_N_char d)) = 48 + Z.of_N d.
Proof.
  intros Hd.
  assert (d = 0 ∨ d = 1 ∨ d = 2 ∨ d = 3 ∨ d = 4 ∨ d = 5 ∨ d = 6 ∨ d = 7 ∨
          d = 8 ∨ d = 9)%N as H by lia.
  repeat destruct H as [-> | H]; try subst d; reflexivity.
Qed.

Lemma pretty_N_char_digit (d : N) :
  (d < 10)%N → 48 ≤ Z.of_N (N_of_ascii (pretty_N_char d)) ≤ 57.
Proof.
  intros Hd.
  assert (d = 0 ∨ d = 1 ∨ d = 2 ∨ d = 3 ∨ d = 4 ∨ d = 5 ∨ d = 6 ∨ d = 7 ∨
          d = 8 ∨ d = 9)%N as H by lia.
  repeat destruct H as [-> | H]; try subst d; by vm_compute.
Qed.

Lemma bytesValue_cons c l :
  bytesValue (c :: l) = (c - 48) * 10 ^ Z.of_nat (length l) + bytesValue l.
Proof.
  unfold bytesValue, JS.digitsValue. cbn [fmap list_fmap foldl].
  rewrite foldl_digits, length_fmap. lia.
Qed.

Lemma pretty_N_go_bytes (x : N) s :
  digitBytes (JS.bytes s) →
  digitBytes (JS.bytes (pretty_N_go x s)) ∧
  bytesValue (JS.bytes (pretty_N_go x s))
  = Z.of_N x * 10 ^ Z.of_nat (length (JS.bytes s)) + bytesValue (JS.bytes s) ∧
  (length (JS.bytes s) ≤ length (JS.bytes (pretty_N_go x s)))%nat ∧
  ((0 < x)%N → (length (JS.bytes s) < length (JS.bytes (pretty_N_go x s)))%nat).
Proof.
  revert s. induction (N.lt_wf_0 x) as [x _ IH]. intros s Hs.
  destruct (decide (x = 0)%N) as [->|Hx].
  { rewrite pretty_N_go_0. split; [done|]. split; [lia|]. split; lia. }
  rewrite pretty_N_go_step by lia.
  pose proof (N.mod_lt x 10 ltac:(lia)) as Hmod.
  pose proof (pretty_N_char_byte _ Hmod) as Hb.
  set (s' := String (pretty_N_char (x `mod` 10)) s).
  assert (digitBytes (JS.bytes s')) as Hs'.
  { unfold s'. rewrite bytes_String.
    constructor; [by apply pretty_N_char_digit | done]. }
  destruct (IH (x `div` 10)%N ltac:(apply N.div_lt; lia) s' Hs')
    as (Hd & Hv & Hl & _).
  split; [exact Hd|]. split; [|split].
  - rewrite Hv. unfold s'. rewrite bytes_String, bytesValue_cons, Hb.
    cbn [length]. rewrite Nat2Z.inj_succ, Z.pow_succ_r by lia.
    pose proof (N.div_mod x 10 ltac:(lia)) as Hdm.
    assert (Z.of_N x = 10 * Z.of_N (x `div` 10) + Z.of_N (x `mod` 10)) as ->
      by (rewrite Hdm at 1; by rewrite N2Z.inj_add, N2Z.inj_mul).
    ring.
  - subst s'. rewrite bytes_String in Hl. cbn [length] in Hl. lia.
  - intros _. subst s'. rewrite bytes_String in Hl. cbn [length] in Hl. lia.
Qed.

Lemma pretty_N_bytes (n : N) :
  digitBytes (JS.bytes (pretty n)) ∧
  bytesValue (JS.bytes (pretty n)) = Z.of_N n ∧
  JS.bytes (pretty n) ≠ [].
Proof.
  unfold pretty, pretty_N. destruct (decide (n = 0)%N) as [->|Hn].
  - split; [by repeat constructor|]. split; [reflexivity | discriminate].
  - destruct (pretty_N_go_bytes n "" ltac:(constructor)) as (Hd & Hv & _ & Hl).
    split; [exact Hd|]. split.
    + rewrite Hv. change (JS.bytes "") with (@nil Z).
      change (bytesValue []) with 0. cbn [length Z.of_nat].
      rewrite Z.pow_0_r. lia.
    + specialize (Hl ltac:(lia)). change (JS.bytes "") with (@nil Z) in Hl.
      destruct (JS.bytes (pretty_N_go n "")); [cbn in Hl; lia | discriminate].
Qed.

Lemma stripAny_digit (ws : list (list Z)) c l :
  48 ≤ c ≤ 57 →
  Forall (λ w, ∃ a w', w = a :: w' ∧ (a < 48 ∨ 57 < a)) ws →
  JS.stripAny ws (c :: l) = None.
Proof.
  intros Hc. induction 1 as [|w ws (a & w' & -> & Ha) _ IH]; [reflexivity|].
  cbn [JS.stripAny JS.stripPrefix].
  rewrite (proj2 (Z.eqb_neq a c)) by lia. exact IH.
Qed.

Lemma whiteSpace_not_digits :
  Forall (λ w, ∃ a w', w = a :: w' ∧ (a < 48 ∨ 57 < a)) JS.whiteSpace ∧
  Forall (λ w, ∃ a w', w = a :: w' ∧ (a < 48 ∨ 57 < a))
    (reverse <$> JS.whiteSpace).
Proof.
  split; cbv [JS.whiteSpace fmap list_fmap reverse rev_append];
    repeat constructor; eexists _, _; (split; [reflexivity|]); lia.
Qed.

Lemma trimStart_digit ws c l :
  48 ≤ c ≤ 57 →
  Forall (λ w, ∃ a w', w = a :: w' ∧ (a < 48 ∨ 57 < a)) ws →
  JS.trimStart ws (c :: l) = c :: l.
Proof.
  intros Hc Hws. unfold JS.trimStart. cbn [length JS.trimStartFuel].
  by rewrite stripAny_digit.
Qed.

Lemma trim_digitBytes l : digitBytes l → JS.trim l = l.
Proof.
  intros Hl. destruct l as [|c l]; [reflexivity|].
  unfold JS.trim. inversion Hl as [|? ? Hc Hl']; subst.
  rewrite trimStart_digit by (done || apply whiteSpace_not_digits).
  assert (digitBytes (reverse (c :: l))) as Hr
    by (unfold digitBytes; by rewrite Forall_reverse).
  assert (reverse (c :: l) ≠ []) as Hne.
  { intros H%(f_equal length). rewrite length_reverse in H. discriminate. }
  destruct (reverse (c :: l)) as [|c' l'] eqn:E; [done|].
  inversion Hr as [|? ? Hc' _]; subst.
  rewrite trimStart_digit by (done || apply whiteSpace_not_digits).
  rewrite <- E. apply reverse_involutive.
Qed.

Lemma digit_cases c :
  48 ≤ c ≤ 57 →
  c = 48 ∨ c = 49 ∨ c = 50 ∨ c = 51 ∨ c = 52 ∨ c = 53 ∨ c = 54 ∨ c = 55 ∨
  c = 56 ∨ c = 57.
Proof. lia. Qed.

Lemma StringToNumber_digitBytes s :
  digitBytes (JS.bytes s) → JS.bytes s ≠ [] →
  JS.StringToNumber s = JS.ofZ (bytesValue (JS.bytes s)).
Proof.
  intros Hd Hne. unfold JS.StringToNumber. rewrite trim_digitBytes by done.
  assert (0 ≤ bytesValue (JS.bytes s)) as Hpos.
  { clear Hne. induction Hd as [|c l Hc _ IH]; [done|].
    rewrite bytesValue_cons.
    assert (0 ≤ 10 ^ Z.of_nat (length l)) by (apply Z.pow_nonneg; lia).
    nia. }
  assert (JS.unsignedDecimal false (JS.bytes s)
          = JS.ofZ (bytesValue (JS.bytes s))) as Hu.
  { unfold JS.unsignedDecimal.
    destruct (JS.bytes s) as [|c l] eqn:E; [done|].
    inversion Hd as [|? ? Hc _]; subst.
    rewrite decide_False
      by (change (JS.bytes "Infinity") with (73 :: JS.bytes "nfinity");
          intros [= ? _]; lia).
    rewrite (takeDigits_digitBytes _ Hd). cbn [fmap list_fmap app].
    cbn [JS.exponentPart length]. rewrite app_nil_r.
    change (0 - Z.of_nat 0) with 0. cbn [Z.leb Z.compare Z.pow].
    unfold JS.ofZ, bytesValue in *.
    rewrite (proj2 (Z.ltb_ge _ 0)) by exact Hpos.
    rewrite Z.abs_eq by exact Hpos. cbn [fmap list_fmap].
    by rewrite Z.mul_1_r. }
  rewrite <- Hu.
  destruct (JS.bytes s) as [|c l] eqn:E; [done|].
  inversion Hd as [|? ? Hc Hl]; subst.
  destruct (digit_cases c Hc) as [-> | H]; [|by repeat destruct H as [-> | H];
                                               try subst c].
  destruct l as [|c2 l]; [reflexivity|].
  inversion Hl as [|? ? Hc2 _]; subst.
  pose proof (digit_cases c2 Hc2) as H.
  by repeat destruct H as [-> | H]; try subst c2.
Qed.

Lemma StringToNumber_pretty (n : N) :
  JS.StringToNumber (pretty n) = JS.ofZ (Z.of_N n).
Proof.
  destruct (pretty_N_bytes n) as (Hd & Hv & Hne).
  by rewrite StringToNumber_digitBytes, Hv.
Qed.

Lemma ofZ_truthy z : 0 < z → JS.truthy (JS.ofZ z) = true.
Proof.
  intros Hz. unfold JS.ofZ, JS.toDouble.
  rewrite Z.abs_eq by lia. rewrite (proj2 (Z.eqb_neq z 0)) by lia.
  assert (JS.binade z 1 = Z.log2 z) as ->.
  { unfold JS.binade. change (Z.log2 1) with 0. rewrite Z.sub_0_r.
    pose proof (Z.log2_nonneg z). pose proof (Z.log2_spec z Hz) as [Hlo _].
    rewrite (proj2 (Z.leb_le 0 (Z.log2 z))) by lia.
    by rewrite (proj2 (Z.leb_le _ z)) by lia. }
  set (u := Z.max (Z.log2 z) (-1022) - 52).
  set (m := if 0 <=? u then JS.roundHalfEven z (1 * 2 ^ u)
            else JS.roundHalfEven (z * 2 ^ (- u)) 1).
  assert (0 < m) as Hm.
  { subst m. pose proof (Z.log2_nonneg z).
    pose proof (Z.log2_spec z Hz) as [Hlo _].
    assert (u = Z.log2 z - 52) as Hu by (subst u; lia).
    destruct (0 <=? u) eqn:E.
    - apply Z.leb_le in E. unfold JS.roundHalfEven.
      assert (0 < 2 ^ u) by (apply Z.pow_pos_nonneg; lia).
      assert (1 ≤ z / (1 * 2 ^ u)).
      { apply Z.div_le_lower_bound; [lia|].
        assert (2 ^ u ≤ 2 ^ Z.log2 z) by (apply Z.pow_le_mono_r; lia). lia. }
      destruct (2 * (z `mod` (1 * 2 ^ u)) ?= 1 * 2 ^ u); [|lia..].
      destruct (Z.even _); lia.
    - apply Z.leb_gt in E. unfold JS.roundHalfEven.
      rewrite Z.mod_1_r, Z.div_1_r. change (2 * 0 ?= 1) with Lt.
      cbn beta iota. apply Z.mul_pos_pos; [lia|].
      apply Z.pow_pos_nonneg; lia. }
  clearbody m. rewrite (proj2 (Z.ltb_ge z 0)) by lia.
  destruct ((0 <=? u) && (2 ^ 1024 <=? m * 2 ^ u)); [reflexivity|].
  unfold JS.normalize. destruct m as [|p|p]; try lia.
  by destruct (JS.oddPart p).
Qed.

Lemma mount_requests gif s tid :
  rendered s = None → threadId s = Some tid →
  requests (step gif s Mount)
  = requests s
    ++ [ThreadQ tid; GetThreadRecommendationQuestionsQ tid]
    ++ from_option (λ u, [ThreadResponseQ (ThreadResponse.id u)]) []
         (unfinishedRespose gif (thread s)).
Proof.
  intros Hr Htid. unfold step. cbn [handler]. cbn beta iota.
  unfold mret, M_ret. cbn beta iota.
  assert (rendered s ≠ Some (deps gif s)) as Hu by (by rewrite Hr).
  destruct (render_calmer gif s Hu) as (_ & _ & -> & _).
  run_pass. unfold deps. rewrite Hr, Htid.
  cbn [Deps.threadId Deps.thread].
  destruct (unfinishedRespose gif (thread s)) as [u|]; cbn [from_option].
  all: generalize (thread s) (isFinished gif s) (recommendedQuestions s);
    intros th fin rq.
  all: run_M; split_conditions; run_M;
    rewrite <- ?app_assoc; cbn [app]; reflexivity.
Qed.

(** X12. On the first render of the page, a route whose id is the decimal
    numeral of a positive number selects the thread of that number: the
    thread id is that number, the [Thread] query is not skipped, and the
    page asks for the thread, then for its recommendations, then, where the
    conversation is in the cache already and has an unfinished response,
    for the first such response, and for nothing else; with nothing in the
    cache these are the two operations of the thread and of its
    recommendations. *)
Theorem decimal_route_selects_that_thread gif (n : N) cache :
  (0 < n)%N →
  let s := set_cache cache
             (initial (Some {[ "id" := JS.PString (pretty n) ]})) in
  threadId s = Some (JS.ofZ (Z.of_N n)) ∧
  skip (threadId s) = false ∧
  thread s = cache !! JS.ofZ (Z.of_N n) ∧
  requests (step gif s Mount)
  = [ThreadQ (JS.ofZ (Z.of_N n));
     GetThreadRecommendationQuestionsQ (JS.ofZ (Z.of_N n))]
    ++ from_option (λ u, [ThreadResponseQ (ThreadResponse.id u)]) []
         (unfinishedRespose gif (cache !! JS.ofZ (Z.of_N n))).
Proof.
  intros Hn s.
  assert (threadId s = Some (JS.ofZ (Z.of_N n))) as Htid.
  { unfold threadId, s. cbn [params initial set_cache mbind option_bind].
    rewrite lookup_singleton_eq. cbn [JS.Number].
    rewrite StringToNumber_pretty. unfold JS.orNull.
    by rewrite ofZ_truthy by lia. }
  assert (thread s = cache !! JS.ofZ (Z.of_N n)) as Hth.
  { unfold thread, data, skip, cached. rewrite Htid. reflexivity. }
  split; [exact Htid|]. split; [by rewrite Htid|]. split; [exact Hth|].
  rewrite <- Hth. exact (mount_requests gif s _ eq_refl Htid).
Qed.

Lemma decimal_route_selects_that_thread_witness :
  let s := initial (Some {[ "id" := JS.PString "2024" ]}) in
  threadId s = Some (JS.ofZ 2024) ∧
  requests (step useAskPrompt.getIsFinished s Mount)
  = [ThreadQ (JS.ofZ 2024); GetThreadRecommendationQuestionsQ (JS.ofZ 2024)].
Proof.
  intros s.
  destruct (decimal_route_selects_that_thread useAskPrompt.getIsFinished
              2024%N ∅) as (H1 & _ & _ & H3); [reflexivity|].
  split; [exact H1 | exact H3].
Defined.

Lemma oddPart_spec p :
  Zpos p = Zpos (JS.oddPart p).1 * 2 ^ (JS.oddPart p).2 ∧
  0 ≤ (JS.oddPart p).2 ∧
  Z.odd (Zpos (JS.oddPart p).1) = true.
Proof.
  induction p as [p _|p IH|]; cbn [JS.oddPart].
  - cbn [fst snd]. split; [lia|]. split; [lia | reflexivity].
  - destruct (JS.oddPart p) as [r k]. cbn [fst snd] in *.
    destruct IH as (Hp & Hk & Hr). split; [|split; [lia | exact Hr]].
    rewrite Z.pow_add_r, Z.pow_1_r by lia.
    change (Z.pos p~0) with (2 * Z.pos p). lia.
  - cbn [fst snd]. split; [lia|]. split; [lia | reflexivity].
Qed.

Lemma integerValue_normalize m k z :
  0 < m → 0 ≤ k → m = z * 2 ^ k →
  integerValue (JS.normalize m (- k)) = Some z.
Proof.
  intros Hm Hk Hz. unfold JS.normalize. destruct m as [|p|p]; try lia.
  destruct (oddPart_spec p) as (Hp & Hj & Hodd).
  destruct (JS.oddPart p) as [r j]. cbn [fst snd] in *.
  assert (k ≤ j) as Hkj.
  { destruct (Z.le_gt_cases k j) as [|Hlt]; [done|]. exfalso.
    assert (2 ^ k = 2 ^ j * (2 * 2 ^ (k - j - 1))) as Hpow.
    { rewrite <- (Z.pow_succ_r 2 (k - j - 1)) by lia.
      rewrite <- Z.pow_add_r by lia. f_equal. lia. }
    assert (0 < 2 ^ j) by (apply Z.pow_pos_nonneg; lia).
    assert (Z.pos r = 2 * (z * 2 ^ (k - j - 1))) as Hr.
    { apply (Z.mul_cancel_r _ _ (2 ^ j)); [lia|].
      rewrite <- Hp, Hz, Hpow. ring. }
    rewrite Hr, Z.odd_mul in Hodd. discriminate. }
  unfold integerValue. rewrite (proj2 (Z.leb_le 0 (- k + j))) by lia.
  f_equal.
  assert (0 < 2 ^ k) by (apply Z.pow_pos_nonneg; lia).
  apply (Z.mul_cancel_r _ _ (2 ^ k)); [lia|].
  rewrite <- Hz, Hp, <- Z.mul_assoc, <- Z.pow_add_r by lia.
  do 2 f_equal. lia.
Qed.

Lemma integerValue_ofZ z :
  0 < z < 2 ^ 53 → integerValue (JS.ofZ z) = Some z.
Proof.
  intros [Hz Hlt]. unfold JS.ofZ, JS.toDouble.
  rewrite Z.abs_eq by lia. rewrite (proj2 (Z.eqb_neq z 0)) by lia.
  rewrite (proj2 (Z.ltb_ge z 0)) by lia.
  pose proof (Z.log2_nonneg z) as Hl0.
  pose proof (Z.log2_spec z Hz) as [Hlo Hhi].
  assert (Z.log2 z < 53) as Hl by (apply Z.log2_lt_pow2; lia).
  assert (JS.binade z 1 = Z.log2 z) as ->.
  { unfold JS.binade. change (Z.log2 1) with 0. rewrite Z.sub_0_r.
    rewrite (proj2 (Z.leb_le 0 (Z.log2 z))) by lia.
    by rewrite (proj2 (Z.leb_le _ z)) by lia. }
  rewrite Z.max_l by lia.
  set (k := 52 - Z.log2 z).
  assert (Z.log2 z - 52 = - k) as -> by (subst k; lia).
  assert (0 ≤ k) as Hk by (subst k; lia).
  assert (0 < 2 ^ k) as Hpk by (apply Z.pow_pos_nonneg; lia).
  assert ((if 0 <=? - k then JS.roundHalfEven z (1 * 2 ^ (- k))
           else JS.roundHalfEven (z * 2 ^ (- - k)) 1) = z * 2 ^ k) as ->.
  { unfold JS.roundHalfEven. destruct (0 <=? - k) eqn:E.
    - apply Z.leb_le in E. assert (k = 0) as -> by lia.
      change (1 * 2 ^ (- 0)) with 1.
      rewrite Z.mod_1_r, Z.div_1_r. change (2 * 0 ?= 1) with Lt.
      cbn beta iota. change (2 ^ 0) with 1. lia.
    - rewrite Z.opp_involutive, Z.mod_1_r, Z.div_1_r.
      by change (2 * 0 ?= 1) with Lt. }
  assert ((0 <=? - k) && (2 ^ 1024 <=? z * 2 ^ k * 2 ^ (- k)) = false) as ->.
  { destruct (0 <=? - k) eqn:E; [|reflexivity].
    apply Z.leb_le in E. assert (k = 0) as -> by lia.
    change (2 ^ (- 0)) with 1. change (2 ^ 0) with 1.
    apply Z.leb_gt.
    assert (2 ^ 53 < 2 ^ 1024) by (apply Z.pow_lt_mono_r; lia). lia. }
  apply integerValue_normalize; [|exact Hk | reflexivity].
  apply Z.mul_pos_pos; lia.
Qed.

(** X13. The numeral of a route is read exactly: for a positive number
    below [2^53], the thread id of the route written with its decimal
    numeral stands for that very number, so the routes of two different
    numbers select two different thread ids. *)
Theorem decimal_routes_are_read_exactly (n1 n2 : N) :
  let route (n : N) := initial (Some {[ "id" := JS.PString (pretty n) ]}) in
  (0 < n1 < 2 ^ 53)%N →
  (0 < n2 < 2 ^ 53)%N →
  threadId (route n1) ≫= integerValue = Some (Z.of_N n1) ∧
  (threadId (route n1) = threadId (route n2) → n1 = n2).
Proof.
  intros route H1 H2.
  assert (∀ n, (0 < n < 2 ^ 53)%N →
               threadId (route n) ≫= integerValue = Some (Z.of_N n)) as Hv.
  { intros n Hn.
    assert (threadId (route n) = Some (JS.ofZ (Z.of_N n))) as ->.
    { unfold threadId, route. cbn [params initial mbind option_bind].
      rewrite lookup_singleton_eq. cbn [JS.Number].
      rewrite StringToNumber_pretty. unfold JS.orNull.
      by rewrite ofZ_truthy by lia. }
    cbn [mbind option_bind]. apply integerValue_ofZ.
    change (2 ^ 53)%N with (Z.to_N (2 ^ 53)) in Hn. lia. }
  split; [by apply Hv|].
  intros Heq. pose proof (Hv n1 H1) as E1. pose proof (Hv n2 H2) as E2.
  rewrite Heq, E2 in E1. injection E1. lia.
Qed.

Lemma decimal_routes_are_read_exactly_witness :
  threadId (initial (Some {[ "id" := JS.PString "9007199254740991" ]}))
    ≫= integerValue
  = Some 9007199254740991.
Proof.
  refine (proj1 (decimal_routes_are_read_exactly
                   9007199254740991 1 _ _)); by vm_compute.
Defined.
